(** * EventBus: a shallow embedding of the topic-routed event bus and of the
      workflow protocol layer built on it.

    Sources embedded here:
    - module [./EventBus] (the second unit of [src/react-hooks.ts]): class
      [EventBus] ([send], [subscribe], [unsubscribe], [request],
      [getHistory], [clearHistory], [getActiveSubscriptions],
      [unsubscribeAll], [destroy], [addToHistory]);
    - module [./WorkflowAPI]: class [WorkflowAPI] ([execute], [cancel],
      [cleanup]), class [WorkflowBuilder] and the factory [workflow].

    Modelling choices, all stated once here:
    - JavaScript strings are sequences of code units; they are modelled by
      [string] (code units below 256).  Numbers are modelled by [Z]
      (the integer-valued ones).
    - [Date.now()] and [Math.random()] are inputs of the operations that read
      them.
    - Caller-supplied functions (listeners, workflow callbacks) are opaque: a
      function is identified by a name and may throw; calling it leaves a
      record in a ghost call log, which is how "was invoked", "in which
      order" and "with which arguments" are stated.
    - The bus is built on the RxJS [Subject].  The library is not part of the
      repository; the embedding follows its documented RxJS 7 behaviour:
      [next] iterates over a copy of the observer array taken when it is
      called, a subscriber that has been unsubscribed ignores [next], and an
      exception escaping a [next] handler is caught by the subscriber and
      reported asynchronously instead of being rethrown to the caller of
      [next].
    - Console diagnostics ([console.log], [console.warn]) have no effect on
      the state and are left out; so are the React hooks, which need the
      React runtime.
    - [request] is a [send] of a copy of the data; the new [AsyncSubject] is
      an input, and what a listener does with it is out of reach of an
      opaque listener.
    - [destroy] completes the subject; module [Lifetime] adds the subject's
      [isStopped] flag to the state and gives [send], [subscribe] and
      [unsubscribe] on a bus that may have been destroyed. *)

From Stdlib Require Import ZArith String Ascii DecimalString Lia.
From stdpp Require Import base option list strings gmap.

Open Scope string_scope.
Open Scope list_scope.

(** ** JavaScript values *)

Module JS.

#[local] Set Warnings "-register-all".

Inductive value :=
| Undefined
| Null
| Bool (b : bool)
| Num (n : Z)
| Str (s : string)
| Obj (fields : list (string * value)).

(** [ToBoolean]: [undefined], [null], [false], [0] and the empty string are
    falsy, every object is truthy. *)
Definition truthy (v : value) : bool :=
  match v with
  | Undefined | Null => false
  | Bool b => b
  | Num n => negb (n =? 0)%Z
  | Str s => negb (String.eqb s "")
  | Obj _ => true
  end.

Fixpoint field (k : string) (fields : list (string * value)) : value :=
  match fields with
  | [] => Undefined
  | (k', v) :: rest => if String.eqb k k' then v else field k rest
  end.

(** [v.k]: a [TypeError] ([None]) on [undefined] and [null]; primitives have
    none of the properties read by the code below. *)
Definition get (v : value) (k : string) : option value :=
  match v with
  | Undefined | Null => None
  | Obj fields => Some (field k fields)
  | _ => Some Undefined
  end.

(** [v?.k] *)
Definition getOpt (v : value) (k : string) : value :=
  match v with
  | Obj fields => field k fields
  | _ => Undefined
  end.

(** [a || b] *)
Definition orElse (a b : value) : value := if truthy a then a else b.

(** [states.includes(v)] for an array of strings. *)
Definition includes (states : list string) (v : value) : bool :=
  match v with
  | Str s => existsb (String.eqb s) states
  | _ => false
  end.

End JS.

(** ** Regular expressions

    [new RegExp(source, 'i')] and [RegExp.prototype.test], for the sources in
    which every character is an ordinary ASCII character or [.], each
    possibly followed by [*].  [parse] answers [None] outside this fragment
    (the other syntax characters either change the meaning of the expression
    or make the constructor throw a [SyntaxError]). *)

Module RegExp.

Inductive atom :=
| Lit (c : ascii)
| Dot.

Inductive piece :=
| One (a : atom)
| Many (a : atom).

Definition regex := list piece.

Definition isSyntaxChar (c : ascii) : bool :=
  existsb (Ascii.eqb c) (list_ascii_of_string "^$\.*+?()[]{}|").

Definition atomOf (c : ascii) : option atom :=
  if Ascii.eqb c "." then Some Dot
  else if isSyntaxChar c || (128 <=? nat_of_ascii c)%nat then None
  else Some (Lit c).

Fixpoint parse (source : string) : option regex :=
  match source with
  | EmptyString => Some []
  | String c rest =>
      match atomOf c with
      | None => None
      | Some a =>
          match rest with
          | String q rest' =>
              if Ascii.eqb q "*" then cons (Many a) <$> parse rest'
              else cons (One a) <$> parse rest
          | EmptyString => Some [One a]
          end
      end
  end.

Definition isLineTerminator (c : ascii) : bool :=
  Ascii.eqb c "010" || Ascii.eqb c "013".

(** [Canonicalize] under the [i] flag, on code units: ASCII lower-case
    letters are mapped to upper case; a code unit outside ASCII is never
    mapped into ASCII. *)
Definition canonicalize (c : ascii) : ascii :=
  let n := nat_of_ascii c in
  if ((97 <=? n) && (n <=? 122))%nat then ascii_of_nat (n - 32) else c.

Definition accepts (a : atom) (c : ascii) : bool :=
  match a with
  | Dot => negb (isLineTerminator c)
  | Lit p => Ascii.eqb (canonicalize p) (canonicalize c)
  end.

(** Does [re] match a prefix of [s]?  Backtracking explores every split, so
    the answer is that of the JavaScript matcher started at this position. *)
Fixpoint matchHere (re : regex) (s : string) {struct re} : bool :=
  match re with
  | [] => true
  | One a :: re' =>
      match s with
      | String c s' => accepts a c && matchHere re' s'
      | EmptyString => false
      end
  | Many a :: re' =>
      (fix star (s : string) : bool :=
         matchHere re' s ||
         match s with
         | String c s' => accepts a c && star s'
         | EmptyString => false
         end) s
  end.

(** [regex.test(s)] for a regex without the [g] and [y] flags: a match may
    start at any position. *)
Fixpoint test (re : regex) (s : string) : bool :=
  matchHere re s ||
  match s with
  | String _ s' => test re s'
  | EmptyString => false
  end.

End RegExp.

(** ** Topic filters ([EventBus.subscribe], the two [filter] predicates) *)

(** [topic.includes('*')] *)
Fixpoint includesStar (topic : string) : bool :=
  match topic with
  | EmptyString => false
  | String c rest => Ascii.eqb c "*" || includesStar rest
  end.

(** [topic.replace(/\*/g, '.*')] *)
Fixpoint replaceStars (topic : string) : string :=
  match topic with
  | EmptyString => EmptyString
  | String c rest =>
      if Ascii.eqb c "*" then String "." (String "*" (replaceStars rest))
      else String c (replaceStars rest)
  end.

Inductive TopicFilter :=
| Exact (topic : string)
| Wildcard (re : RegExp.regex).

Definition compileFilter (topic : string) : option TopicFilter :=
  if includesStar topic then Wildcard <$> RegExp.parse (replaceStars topic)
  else Some (Exact topic).

Definition passes (f : TopicFilter) (eventTopic : string) : bool :=
  match f with
  | Exact topic => String.eqb eventTopic topic
  | Wildcard re => RegExp.test re eventTopic
  end.

(** The matcher as a function of the subscription pattern and the event
    topic; [None] when the pattern is outside the modelled regex fragment. *)
Definition matches (pattern eventTopic : string) : option bool :=
  (fun f => passes f eventTopic) <$> compileFilter pattern.

(** ** Events, listeners and the state of the program *)

Record Event := {
  topic : string;
  data : JS.value;
  timestamp : Z;
  metadata : JS.value
}.

(** A caller-supplied function: opaque, identified by its name; [fn_throws]
    is the value it throws when called, if it throws. *)
Record Fn := {
  fn_name : string;
  fn_throws : option JS.value
}.

(** The listeners a subscription can hold: a caller-supplied [EventListener],
    or the arrow function that [WorkflowAPI.execute] registers, a closure
    over [this] (the reference [api]), the two state lists and the three
    callbacks. *)
Inductive Listener :=
| Plain (f : Fn)
| StateChange (api : nat) (successStates errorStates : list string)
    (onSuccess onError onProgress : option Fn).

(** What [observable.subscribe] leaves in the subject: the topic filter and
    the arrow function calling [listener] with the captured [subscriptionId],
    [closure] and [customData].  [handle] is the identity of the
    [Subscription] object that [subscribe] stores in the map. *)
Record Subscriber := {
  handle : nat;
  sub_id : string;
  topicFilter : TopicFilter;
  listener : Listener;
  closure : JS.value;
  customData : JS.value
}.

Record EventBus := {
  observers : list Subscriber;          (* subject.observers *)
  subscriptions : list (string * nat);  (* Map<string, Subscription>, in insertion order *)
  debug : bool;
  eventHistory : list Event;
  maxHistorySize : Z;
  nextHandle : nat                      (* the next Subscription object *)
}.

Record Options := {
  opt_debug : option bool;
  opt_maxHistorySize : option Z
}.

Record WorkflowAPI := {
  workflowName : string;
  subscriptionId : option string
}.

(** The ghost call log: the bus delivered an event to the listener of a
    subscription; a workflow callback was called. *)
Inductive LogEntry :=
| Delivered (id topic : string) (data closure customData : JS.value)
| Called (f : Fn) (args : list JS.value).

(** The bus, the [WorkflowAPI] objects by reference, the call log, and the
    errors handed to [reportUnhandledError]. *)
Record World := {
  bus : EventBus;
  apis : gmap nat WorkflowAPI;
  log : list LogEntry;
  unhandled : list JS.value
}.

Definition setBus (b : EventBus) (w : World) : World :=
  {| bus := b; apis := apis w; log := log w; unhandled := unhandled w |}.

Definition setApi (api : nat) (a : WorkflowAPI) (w : World) : World :=
  {| bus := bus w; apis := <[api := a]> (apis w); log := log w;
     unhandled := unhandled w |}.

Definition record (e : LogEntry) (w : World) : World :=
  {| bus := bus w; apis := apis w; log := log w ++ [e];
     unhandled := unhandled w |}.

(** [reportUnhandledError]: the error is rethrown later, from a timer. *)
Definition reportUnhandledError (e : JS.value) (w : World) : World :=
  {| bus := bus w; apis := apis w; log := log w;
     unhandled := unhandled w ++ [e] |}.

(** ** class EventBus *)

(** [constructor]: [options?.debug || false], [options?.maxHistorySize || 100].
    The observer that [enableDebugMode] adds in debug mode only writes to the
    console and is not kept in the map; it is left out. *)
Definition newEventBus (options : option Options) : EventBus :=
  {| observers := [];
     subscriptions := [];
     debug := default false (options ≫= opt_debug);
     eventHistory := [];
     maxHistorySize :=
       match options ≫= opt_maxHistorySize with
       | Some n => if (n =? 0)%Z then 100%Z else n
       | None => 100%Z
       end;
     nextHandle := 0 |}.

Definition newWorld (options : option Options) : World :=
  {| bus := newEventBus options; apis := ∅; log := []; unhandled := [] |}.

(** [addToHistory]: [push], then [shift] when the length exceeds the bound. *)
Definition addToHistory (event : Event) (b : EventBus) : EventBus :=
  let pushed := eventHistory b ++ [event] in
  {| observers := observers b;
     subscriptions := subscriptions b;
     debug := debug b;
     eventHistory :=
       if (maxHistorySize b <? Z.of_nat (length pushed))%Z then tail pushed
       else pushed;
     maxHistorySize := maxHistorySize b;
     nextHandle := nextHandle b |}.

(** [this.subscriptions.has(id)] and [this.subscriptions.get(id)] *)
Definition has (id : string) (b : EventBus) : bool :=
  existsb (fun '(k, _) => String.eqb k id) (subscriptions b).

Fixpoint mapGet (id : string) (m : list (string * nat)) : option nat :=
  match m with
  | [] => None
  | (k, h) :: rest => if String.eqb k id then Some h else mapGet id rest
  end.

(** [subscribe]: a known id is skipped; otherwise the filter is compiled, the
    subscriber joins the subject and its subscription is stored under [id].
    [None]: the wildcard pattern is outside the modelled regex fragment. *)
Definition subscribe (id pattern : string) (l : Listener)
    (closure customData : JS.value) (b : EventBus) : option EventBus :=
  if has id b then Some b
  else
    f ← compileFilter pattern;
    Some {| observers :=
              observers b ++
              [{| handle := nextHandle b; sub_id := id; topicFilter := f;
                  listener := l; closure := closure;
                  customData := customData |}];
            subscriptions := subscriptions b ++ [(id, nextHandle b)];
            debug := debug b;
            eventHistory := eventHistory b;
            maxHistorySize := maxHistorySize b;
            nextHandle := S (nextHandle b) |}.

(** [unsubscribe]: the subscription found under [id] is unsubscribed (its
    subscriber leaves the subject) and the entry is deleted. *)
Definition unsubscribe (id : string) (b : EventBus) : EventBus :=
  match mapGet id (subscriptions b) with
  | Some h =>
      {| observers := filter (fun o => handle o ≠ h) (observers b);
         subscriptions := filter (fun kv => kv.1 ≠ id) (subscriptions b);
         debug := debug b;
         eventHistory := eventHistory b;
         maxHistorySize := maxHistorySize b;
         nextHandle := nextHandle b |}
  | None => b
  end.

(** [getHistory(topic?)]: an empty topic is falsy, like a missing one. *)
Definition getHistory (topic' : option string) (b : EventBus) : list Event :=
  match topic' with
  | Some t =>
      if String.eqb t "" then eventHistory b
      else filter (fun e => topic e = t) (eventHistory b)
  | None => eventHistory b
  end.

Definition clearHistory (b : EventBus) : EventBus :=
  {| observers := observers b;
     subscriptions := subscriptions b;
     debug := debug b;
     eventHistory := [];
     maxHistorySize := maxHistorySize b;
     nextHandle := nextHandle b |}.

Definition getActiveSubscriptions (b : EventBus) : list string :=
  (subscriptions b).*1.

(** [unsubscribeAll]: every stored subscription is unsubscribed, then the map
    is cleared. *)
Definition unsubscribeAll (b : EventBus) : EventBus :=
  {| observers :=
       filter (fun o => handle o ∉ (subscriptions b).*2) (observers b);
     subscriptions := [];
     debug := debug b;
     eventHistory := eventHistory b;
     maxHistorySize := maxHistorySize b;
     nextHandle := nextHandle b |}.

(** ** class WorkflowAPI, and the delivery of events *)

(** [cleanup]: a truthy [this.subscriptionId] is unsubscribed and reset. *)
Definition cleanup (api : nat) (w : World) : World :=
  match apis w !! api with
  | Some a =>
      match subscriptionId a with
      | Some id =>
          if String.eqb id "" then w
          else
            setApi api
              {| workflowName := workflowName a; subscriptionId := None |}
              (setBus (unsubscribe id (bus w)) w)
      | None => w
      end
  | None => w
  end.

Definition cancel (api : nat) (w : World) : World := cleanup api w.

(** A call of a caller-supplied function, and an optional call [f?.(args)]:
    the world after the call, and the value thrown if any. *)
Definition call (f : Fn) (args : list JS.value) (w : World)
    : World * option JS.value :=
  (record (Called f args) w, fn_throws f).

Definition typeError : JS.value := JS.Str "TypeError".

(** The listener registered by [execute]. *)
Definition stateChangeListener (api : nat)
    (successStates errorStates : list string)
    (onSuccess onError onProgress : option Fn)
    (eventData : JS.value) (w : World) : World * option JS.value :=
  let state := JS.getOpt eventData "value" in
  if JS.includes successStates state then
    match onSuccess with
    | Some f =>
        match JS.get eventData "event" with
        | Some inner =>
            match call f [JS.getOpt inner "data"] w with
            | (w', None) => (cleanup api w', None)
            | thrown => thrown
            end
        | None => (w, Some typeError)
        end
    | None => (cleanup api w, None)
    end
  else if JS.includes errorStates state then
    match onError with
    | Some f =>
        match JS.get eventData "event" with
        | Some inner =>
            match call f [JS.orElse (JS.getOpt inner "data") eventData] w with
            | (w', None) => (cleanup api w', None)
            | thrown => thrown
            end
        | None => (w, Some typeError)
        end
    | None => (cleanup api w, None)
    end
  else
    match onProgress with
    | Some f => call f [state; eventData] w
    | None => (w, None)
    end.

(** The [next] handler that [subscribe] gives to [observable.subscribe]:
    [listener(subscriptionId, event.topic, event.data, closure, customData)]. *)
Definition invokeListener (o : Subscriber) (event : Event) (w : World)
    : World * option JS.value :=
  let w' :=
    record (Delivered (sub_id o) (topic event) (data event) (closure o)
              (customData o)) w in
  match listener o with
  | Plain f => (w', fn_throws f)
  | StateChange api ss es onS onE onP =>
      stateChangeListener api ss es onS onE onP (data event) w'
  end.

(** [Subscriber.next] of one observer.  [unsubscribe()] marks a subscriber
    as stopped and removes it from the subject, and a stopped subscriber
    drops the values it is sent: an observer of the copy that a listener
    unsubscribed earlier in the same delivery is skipped.  Otherwise the
    filter is applied, then the handler runs inside the subscriber's
    [try]/[catch], which hands an exception to [reportUnhandledError]. *)
Definition closed (o : Subscriber) (w : World) : bool :=
  bool_decide (handle o ∉ handle <$> observers (bus w)).

Definition subscriberNext (event : Event) (w : World) (o : Subscriber)
    : World :=
  if closed o w then w
  else if passes (topicFilter o) (topic event) then
    match invokeListener o event w with
    | (w', None) => w'
    | (w', Some e) => reportUnhandledError e w'
    end
  else w.

(** [Subject.next]: the observers are copied, then visited in order. *)
Definition subjectNext (event : Event) (w : World) : World :=
  foldl (subscriberNext event) w (observers (bus w)).

(** [send]; [now] is the value of [Date.now()]. *)
Definition send (topic : string) (data metadata : JS.value) (now : Z)
    (w : World) : World :=
  let event :=
    {| topic := topic; data := data; timestamp := now;
       metadata := metadata |} in
  subjectNext event (setBus (addToHistory event (bus w)) w).

Record WorkflowCallbacks := {
  onSuccess : option Fn;
  onError : option Fn;
  onProgress : option Fn
}.

(** The fields of [WorkflowConfig] that [execute] reads. *)
Record WorkflowConfig := {
  cfg_successStates : option (list string);
  cfg_errorStates : option (list string)
}.

(** [new WorkflowAPI(eventBus, workflowName)], stored under a fresh reference. *)
Definition newWorkflowAPI (api : nat) (name : string) (w : World)
    : option World :=
  match apis w !! api with
  | Some _ => None
  | None =>
      Some (setApi api {| workflowName := name; subscriptionId := None |} w)
  end.

Definition decimal (n : Z) : string := NilZero.string_of_int (Z.to_int n).

Definition header (registrationId workflow eventType : string) : JS.value :=
  JS.Obj [("registrationId", JS.Str registrationId);
          ("workflow", JS.Str workflow);
          ("eventType", JS.Str eventType)].

(** The two state lists of [execute], with their defaults. *)
Definition successStatesOf (config : option WorkflowConfig) : list string :=
  default ["success"] (config ≫= cfg_successStates).

Definition errorStatesOf (config : option WorkflowConfig) : list string :=
  default ["error"; "failure"] (config ≫= cfg_errorStates).

(** The listener [execute] registers: the arrow function closed over [this],
    the state lists and the callbacks. *)
Definition executionListener (api : nat) (callbacks : WorkflowCallbacks)
    (config : option WorkflowConfig) : Listener :=
  StateChange api (successStatesOf config) (errorStatesOf config)
    (onSuccess callbacks) (onError callbacks) (onProgress callbacks).

(** [execute]; [now] is the [Date.now()] of the registration id, [random] the
    nine characters taken from [Math.random()], [t1] and [t2] the time stamps
    of the two events sent.  [None]: no object under [api], or a workflow
    name that makes the topic a wildcard outside the regex fragment. *)
Definition execute (api : nat) (params : JS.value)
    (callbacks : WorkflowCallbacks) (config : option WorkflowConfig)
    (now : Z) (random : string) (t1 t2 : Z) (w : World) : option World :=
  a ← apis w !! api;
  let name := workflowName a in
  let registrationId := name +:+ "." +:+ decimal now +:+ "." +:+ random in
  let w1 :=
    setApi api {| workflowName := name; subscriptionId := Some registrationId |} w in
  b ← subscribe registrationId ("WF." +:+ name +:+ ".STATE.CHANGE")
        (executionListener api callbacks config)
        JS.Undefined JS.Undefined (bus w1);
  let w2 := setBus b w1 in
  let w3 :=
    send ("WF." +:+ name +:+ ".INIT")
      (JS.Obj [("header", header registrationId name "INIT")])
      JS.Undefined t1 w2 in
  Some
    (send ("WF." +:+ name +:+ ".SUBMIT")
       (JS.Obj [("header", header registrationId name "SUBMIT");
                ("body", params)])
       JS.Undefined t2 w3).

(** ** class WorkflowBuilder *)

(** The builder is a mutable object whose methods return [this]; a chain of
    calls is modelled by the successive values of the object. *)
Module WorkflowBuilder.

Record t := {
  workflowName : string;
  params : JS.value;
  successCallback : option Fn;
  errorCallback : option Fn;
  progressCallback : option Fn;
  config : option WorkflowConfig
}.

(** [new WorkflowBuilder(eventBus, workflowName)]: [params] is [{}]. *)
Definition new (name : string) : t :=
  {| workflowName := name; params := JS.Obj []; successCallback := None;
     errorCallback := None; progressCallback := None; config := None |}.

(** The [WorkflowCallbacks] object that [execute] builds. *)
Definition callbacks (wb : t) : WorkflowCallbacks :=
  {| onSuccess := successCallback wb;
     onError := errorCallback wb;
     onProgress := progressCallback wb |}.

Definition withParams (p : JS.value) (wb : t) : t :=
  {| workflowName := workflowName wb; params := p;
     successCallback := successCallback wb; errorCallback := errorCallback wb;
     progressCallback := progressCallback wb; config := config wb |}.

Definition onSuccess (callback : Fn) (wb : t) : t :=
  {| workflowName := workflowName wb; params := params wb;
     successCallback := Some callback; errorCallback := errorCallback wb;
     progressCallback := progressCallback wb; config := config wb |}.

Definition onError (callback : Fn) (wb : t) : t :=
  {| workflowName := workflowName wb; params := params wb;
     successCallback := successCallback wb; errorCallback := Some callback;
     progressCallback := progressCallback wb; config := config wb |}.

Definition onProgress (callback : Fn) (wb : t) : t :=
  {| workflowName := workflowName wb; params := params wb;
     successCallback := successCallback wb; errorCallback := errorCallback wb;
     progressCallback := Some callback; config := config wb |}.

Definition withConfig (c : WorkflowConfig) (wb : t) : t :=
  {| workflowName := workflowName wb; params := params wb;
     successCallback := successCallback wb; errorCallback := errorCallback wb;
     progressCallback := progressCallback wb; config := Some c |}.

(** [execute]: a new [WorkflowAPI] object, under the fresh reference [api],
    runs the execution; the other inputs are those of
    [WorkflowAPI.execute]. *)
Definition execute (wb : t) (api : nat) (now : Z) (random : string)
    (t1 t2 : Z) (w : World) : option World :=
  w1 ← newWorkflowAPI api (workflowName wb) w;
  execute api (params wb) (callbacks wb) (config wb) now random t1 t2 w1.

End WorkflowBuilder.

(** [workflow(eventBus, workflowName)] *)
Definition workflow (name : string) : WorkflowBuilder.t :=
  WorkflowBuilder.new name.

(** ** [request] *)






(** ** [destroy], and the bus after it

    [destroy] completes the subject.  A completed RxJS subject is stopped:
    [complete] completes and drops its observers, [next] on a stopped
    subject does nothing, and a subscriber that subscribes to it is
    completed at once and never joins it.  The state of the bus over its
    whole life is a world and the subject's [isStopped] flag; the operations
    of the live bus are those above. *)
Module Lifetime.

Record t := {
  world : World;
  isStopped : bool
}.

Definition live (w : World) : t := {| world := w; isStopped := false |}.

(** [subject.complete()] *)
Definition complete (s : t) : t :=
  if isStopped s then s
  else
    let b := bus (world s) in
    {| world :=
         setBus {| observers := [];
                   subscriptions := subscriptions b;
                   debug := debug b;
                   eventHistory := eventHistory b;
                   maxHistorySize := maxHistorySize b;
                   nextHandle := nextHandle b |} (world s);
       isStopped := true |}.

Definition onBus (f : EventBus -> EventBus) (s : t) : t :=
  {| world := setBus (f (bus (world s))) (world s);
     isStopped := isStopped s |}.

(** [destroy]: [unsubscribeAll()], [subject.complete()], [clearHistory()]. *)
Definition destroy (s : t) : t :=
  onBus clearHistory (complete (onBus unsubscribeAll s)).

(** [send]: the event is added to the history, then handed to
    [subject.next]. *)
Definition send (topic : string) (data metadata : JS.value) (now : Z)
    (s : t) : t :=
  if isStopped s then
    onBus
      (addToHistory {| topic := topic; data := data; timestamp := now;
                       metadata := metadata |}) s
  else
    {| world := send topic data metadata now (world s); isStopped := false |}.

(** [subscribe]: on a stopped subject the subscription returned by
    [observable.subscribe] is closed and no observer is added; it is stored
    in the map all the same. *)
Definition subscribe (id pattern : string) (l : Listener)
    (closure customData : JS.value) (s : t) : option t :=
  let b := bus (world s) in
  if isStopped s then
    if has id b then Some s
    else
      _ ← compileFilter pattern;
      Some
        (onBus
           (fun b =>
              {| observers := observers b;
                 subscriptions := subscriptions b ++ [(id, nextHandle b)];
                 debug := debug b;
                 eventHistory := eventHistory b;
                 maxHistorySize := maxHistorySize b;
                 nextHandle := S (nextHandle b) |}) s)
  else
    b' ← subscribe id pattern l closure customData b;
    Some {| world := setBus b' (world s); isStopped := false |}.

Definition unsubscribe (id : string) (s : t) : t := onBus (unsubscribe id) s.

End Lifetime.

(** ** Runs of the program *)

(** One call made by a client of the bus and of the workflow layer. *)
Inductive step : World -> World -> Prop :=
| step_subscribe id pattern f closure customData w b :
    subscribe id pattern (Plain f) closure customData (bus w) = Some b ->
    step w (setBus b w)
| step_unsubscribe id w :
    step w (setBus (unsubscribe id (bus w)) w)
| step_unsubscribeAll w :
    step w (setBus (unsubscribeAll (bus w)) w)
| step_clearHistory w :
    step w (setBus (clearHistory (bus w)) w)
| step_send topic data metadata now w :
    step w (send topic data metadata now w)
| step_newWorkflowAPI api name w w' :
    newWorkflowAPI api name w = Some w' ->
    step w w'
| step_execute api params callbacks config now random t1 t2 w w' :
    execute api params callbacks config now random t1 t2 w = Some w' ->
    step w w'
| step_cancel api w :
    step w (cancel api w).

(** The states a program reaches from a bus constructed with [options]. *)
Definition reachable_from (options : option Options) (w : World) : Prop :=
  rtc step (newWorld options) w.

(** What the operations on subscriptions must leave alone. *)
Definition frame (b : EventBus) : bool * list Event * Z :=
  (debug b, eventHistory b, maxHistorySize b).

(** A message to publish, and the event [send] builds from it. *)
Record Message := {
  msg_topic : string;
  msg_data : JS.value;
  msg_metadata : JS.value;
  msg_now : Z
}.

Definition eventOf (m : Message) : Event :=
  {| topic := msg_topic m; data := msg_data m; timestamp := msg_now m;
     metadata := msg_metadata m |}.

Definition publish (w : World) (m : Message) : World :=
  send (msg_topic m) (msg_data m) (msg_metadata m) (msg_now m) w.

Definition publishAll (ms : list Message) (w : World) : World :=
  foldl publish w ms.

(** The last [n] elements of a list. *)
Definition lastN {A} (n : nat) (l : list A) : list A :=
  drop (length l - n) l.

(** The buffer respects a bound of one entry or more. *)
Definition bounded (b : EventBus) : Prop :=
  (1 <= maxHistorySize b)%Z /\
  (Z.of_nat (length (eventHistory b)) <= maxHistorySize b)%Z.

(** The history bound as the specification words it: a bus constructed with [maxHistorySize = N] never holds
    more than [N] events, whatever is published. *)
Definition history_never_exceeds (N : Z) : Prop :=
  forall ms : list Message,
    (Z.of_nat
       (length
          (eventHistory
             (bus
                (publishAll ms
                   (newWorld
                      (Some {| opt_debug := None;
                               opt_maxHistorySize := Some N |}))))))
     <= N)%Z.

(** The map entry of a subscriber: its id and its subscription object. *)
Definition entry (o : Subscriber) : string * nat := (sub_id o, handle o).

(** The map and the subject hold the same subscriptions, in the same order;
    ids and subscription objects are not shared. *)
Definition consistent (b : EventBus) : Prop :=
  subscriptions b = entry <$> observers b /\
  NoDup (sub_id <$> observers b) /\
  NoDup (handle <$> observers b) /\
  Forall (fun o => handle o < nextHandle b) (observers b).

(** The log entry of the delivery of [event] to the subscription [o]. *)
Definition deliveredEntry (event : Event) (o : Subscriber) : LogEntry :=
  Delivered (sub_id o) (topic event) (data event) (closure o) (customData o).

Definition isDelivered (e : LogEntry) : bool :=
  match e with
  | Delivered _ _ _ _ _ => true
  | Called _ _ => false
  end.

(** The deliveries among some log entries, in order. *)
Definition deliveries (entries : list LogEntry) : list LogEntry :=
  filter (fun e => isDelivered e = true) entries.

(** The subscribers whose filter lets a topic through, in order. *)
Definition matching (eventTopic : string) (os : list Subscriber)
    : list Subscriber :=
  filter (fun o => passes (topicFilter o) eventTopic = true) os.

(** A subscription whose listener is a caller-supplied function, and what
    that function throws. *)
Definition plain (o : Subscriber) : Prop := exists f, listener o = Plain f.

Definition thrown (o : Subscriber) : option JS.value :=
  match listener o with
  | Plain f => fn_throws f
  | StateChange _ _ _ _ _ _ => None
  end.

(** What a run from [w] to [w'] added to the call log. *)
Definition newEntries (w w' : World) : list LogEntry :=
  drop (length (log w)) (log w').

Definition deliveredTo (id : string) (e : LogEntry) : bool :=
  match e with
  | Delivered id' _ _ _ _ => String.eqb id' id
  | Called _ _ => false
  end.

(** Delivery as the specification words it: publishing [m] in the state [w]
    delivers to every subscription current at publish time whose pattern
    matches, in registration order. *)
Definition delivers_to_all_current (w : World) (m : Message) : Prop :=
  deliveries (newEntries w (publish w m))
  = deliveredEntry (eventOf m) <$> matching (msg_topic m) (observers (bus w)).



(** ** Wildcard matching in words *)

(** The segments of a pattern: what stands between its [*]. *)
Fixpoint segments (pattern : string) : list string :=
  match pattern with
  | EmptyString => [EmptyString]
  | String c rest =>
      if Ascii.eqb c "*" then EmptyString :: segments rest
      else
        match segments rest with
        | seg :: segs => String c seg :: segs
        | [] => [String c EmptyString]
        end
  end.

(** "The segments appear in the topic in order": a reading of a topic as
    some characters, the first segment, what the first [*] absorbs, the
    second segment, and so on to the last segment and what follows it.
    [charOk p c]: the pattern character [p] stands for the topic character
    [c]; [gapOk c]: a [*] may absorb [c]. *)
Section Occurrence.

Variable charOk : ascii -> ascii -> bool.
Variable gapOk : ascii -> bool.

Fixpoint segmentIs (seg found : string) : bool :=
  match seg, found with
  | EmptyString, EmptyString => true
  | String p seg', String c found' => charOk p c && segmentIs seg' found'
  | _, _ => false
  end.

Fixpoint gapIs (gap : string) : bool :=
  match gap with
  | EmptyString => true
  | String c gap' => gapOk c && gapIs gap'
  end.

Inductive occurFrom : list string -> string -> Prop :=
| occur_last seg found rest :
    segmentIs seg found = true ->
    occurFrom [seg] (found +:+ rest)
| occur_more seg segs found gap rest :
    segmentIs seg found = true ->
    gapIs gap = true ->
    occurFrom segs rest ->
    occurFrom (seg :: segs) (found +:+ gap +:+ rest).

Definition occur (segs : list string) (eventTopic : string) : Prop :=
  exists skipped rest,
    eventTopic = skipped +:+ rest /\ occurFrom segs rest.

End Occurrence.

(** Characters equal up to the case of letters. *)
Definition sameLetter (p c : ascii) : bool :=
  Ascii.eqb (RegExp.canonicalize p) (RegExp.canonicalize c).

(** The specification's words: every segment is literal, a [*] absorbs
    arbitrary characters, case is ignored. *)
Definition spec_wildcard_matches (pattern eventTopic : string) : Prop :=
  occur sameLetter (fun _ => true) (segments pattern) eventTopic.

Definition wildcard_as_specified : Prop :=
  forall pattern eventTopic,
    includesStar pattern = true ->
    (matches pattern eventTopic = Some true <->
     spec_wildcard_matches pattern eventTopic).

(** What the code matches: a [.] of the pattern stands for any character
    that is not a line terminator, another character for itself up to case;
    a [*] absorbs characters that are not line terminators. *)
Definition patternChar (p c : ascii) : bool :=
  if Ascii.eqb p "." then negb (RegExp.isLineTerminator c)
  else sameLetter p c.

Definition absorbed (c : ascii) : bool := negb (RegExp.isLineTerminator c).

Definition code_wildcard_matches (pattern eventTopic : string) : Prop :=
  occur patternChar absorbed (segments pattern) eventTopic.

(** The regular expression of a list of segments: the atoms of each segment,
    and [.*] between two segments. *)
Definition atomFor (c : ascii) : RegExp.atom :=
  if Ascii.eqb c "." then RegExp.Dot else RegExp.Lit c.

Fixpoint segmentPieces (seg : string) : RegExp.regex :=
  match seg with
  | EmptyString => []
  | String c seg' => RegExp.One (atomFor c) :: segmentPieces seg'
  end.

Fixpoint regexOf (segs : list string) : RegExp.regex :=
  match segs with
  | [] => []
  | seg :: segs' =>
      match segs' with
      | [] => segmentPieces seg
      | _ :: _ => segmentPieces seg ++ RegExp.Many RegExp.Dot :: regexOf segs'
      end
  end.

(** ** The vocabulary of the workflow properties *)

(** How the listener of an execution classifies the data of an event. *)
Inductive Outcome :=
| Success
| Failure
| Progress.

Definition classify (config : option WorkflowConfig) (eventData : JS.value)
    : Outcome :=
  let state := JS.getOpt eventData "value" in
  if JS.includes (successStatesOf config) state then Success
  else if JS.includes (errorStatesOf config) state then Failure
  else Progress.

(** [eventData.event?.data] *)
Definition payload (eventData : JS.value) : JS.value :=
  JS.getOpt (JS.getOpt eventData "event") "data".

(** The callback an outcome selects, and its arguments. *)
Definition notification (callbacks : WorkflowCallbacks)
    (config : option WorkflowConfig) (eventData : JS.value)
    : option Fn * list JS.value :=
  match classify config eventData with
  | Success => (onSuccess callbacks, [payload eventData])
  | Failure =>
      (onError callbacks, [JS.orElse (payload eventData) eventData])
  | Progress =>
      (onProgress callbacks, [JS.getOpt eventData "value"; eventData])
  end.

(** The log entries of an optional call [f?.(args)]. *)
Definition calls (f : option Fn) (args : list JS.value) : list LogEntry :=
  match f with
  | Some f => [Called f args]
  | None => []
  end.


Definition recordAll (entries : list LogEntry) (w : World) : World :=
  {| bus := bus w; apis := apis w; log := log w ++ entries;
     unhandled := unhandled w |}.

Definition isCalled (e : LogEntry) : bool := negb (isDelivered e).



(** ** The vocabulary of the further properties *)

(** The object of a workflow listener tracks the listener's own subscription
    ([this.subscriptionId] is the id under which the listener is
    registered, and is truthy); nothing is asked of a caller-supplied
    listener. *)
Definition tracked (w : World) (o : Subscriber) : Prop :=
  match listener o with
  | Plain _ => True
  | StateChange api _ _ _ _ _ =>
      exists a, apis w !! api = Some a /\
                subscriptionId a = Some (sub_id o) /\ sub_id o ≠ ""
  end.

(** A [WorkflowAPI] object with no execution under way. *)
Definition idle (api : nat) (w : World) : Prop :=
  exists a, apis w !! api = Some a /\ subscriptionId a = None.

(** One call of a client that starts an execution only on a [WorkflowAPI]
    object with no execution under way: an object fresh from its
    constructor, one whose execution has ended or been cancelled, or the
    object that [WorkflowBuilder.execute] creates. *)
Inductive disciplined : World -> World -> Prop :=
| disciplined_subscribe id pattern f closure customData w b :
    subscribe id pattern (Plain f) closure customData (bus w) = Some b ->
    disciplined w (setBus b w)
| disciplined_unsubscribe id w :
    disciplined w (setBus (unsubscribe id (bus w)) w)
| disciplined_unsubscribeAll w :
    disciplined w (setBus (unsubscribeAll (bus w)) w)
| disciplined_clearHistory w :
    disciplined w (setBus (clearHistory (bus w)) w)
| disciplined_send topic data metadata now w :
    disciplined w (send topic data metadata now w)
| disciplined_newWorkflowAPI api name w w' :
    newWorkflowAPI api name w = Some w' ->
    disciplined w w'
| disciplined_execute api params callbacks config now random t1 t2 w w' :
    idle api w ->
    execute api params callbacks config now random t1 t2 w = Some w' ->
    disciplined w w'
| disciplined_cancel api w :
    disciplined w (cancel api w)
| disciplined_builder wb api now random t1 t2 w w' :
    WorkflowBuilder.execute wb api now random t1 t2 w = Some w' ->
    disciplined w w'.

(** Every active subscription is tracked. *)
Definition allTracked (w : World) : Prop :=
  consistent (bus w) /\ forall o, o ∈ observers (bus w) -> tracked w o.

(** The id that [cleanup] on the object [api] would unsubscribe: a truthy
    [this.subscriptionId]. *)
Definition tracking (w : World) (api : nat) : option string :=
  a ← apis w !! api;
  id ← subscriptionId a;
  if String.eqb id "" then None else Some id.

(** The [cleanup] of a workflow listener's object can only remove the
    listener's own subscription: the object tracks that subscription, or
    nothing. *)
Definition settled (w : World) (o : Subscriber) : Prop :=
  match listener o with
  | Plain _ => True
  | StateChange api _ _ _ _ _ =>
      forall id, tracking w api = Some id -> id = sub_id o
  end.

(** The callbacks a workflow listener is closed over. *)
Definition callbacksOf (l : Listener) : WorkflowCallbacks :=
  match l with
  | Plain _ => {| onSuccess := None; onError := None; onProgress := None |}
  | StateChange _ _ _ onS onE onP =>
      {| onSuccess := onS; onError := onE; onProgress := onP |}
  end.

(** The configuration under which [execute] registers such a listener. *)
Definition configOf (l : Listener) : option WorkflowConfig :=
  match l with
  | Plain _ => None
  | StateChange _ ss es _ _ _ =>
      Some {| cfg_successStates := Some ss; cfg_errorStates := Some es |}
  end.

(** The workflow callback that the listener calls for an event, with its
    arguments; a caller-supplied listener calls none. *)
Definition reaction (l : Listener) (eventData : JS.value)
    : option Fn * list JS.value :=
  match l with
  | Plain _ => (None, [])
  | StateChange _ _ _ _ _ _ =>
      notification (callbacksOf l) (configOf l) eventData
  end.

(** What the listener throws. *)
Definition raised (l : Listener) (eventData : JS.value) : option JS.value :=
  match l with
  | Plain f => fn_throws f
  | StateChange _ _ _ _ _ _ => (reaction l eventData).1 ≫= fn_throws
  end.

(** The listener reaches its [this.cleanup()] call: a workflow listener, a
    terminal state, and a callback that returns. *)
Definition cleansUp (l : Listener) (eventData : JS.value) : bool :=
  match l with
  | Plain _ => false
  | StateChange _ _ _ _ _ _ =>
      match classify (configOf l) eventData, raised l eventData with
      | Progress, _ => false
      | _, Some _ => false
      | _, None => true
      end
  end.

(** The log entries of the delivery of [event] to [o]: the call of the
    listener, then the call of a workflow callback if there is one. *)
Definition handled (event : Event) (o : Subscriber) : list LogEntry :=
  deliveredEntry event o ::
  calls (reaction (listener o) (data event)).1
        (reaction (listener o) (data event)).2.

(** The delivery of [event] ends the subscription [o]: [o] matches, its
    listener reaches [cleanup], and its object tracks it. *)
Definition finishedBy (w : World) (event : Event) (o : Subscriber) : bool :=
  passes (topicFilter o) (topic event) &&
  cleansUp (listener o) (data event) &&
  match listener o with
  | Plain _ => false
  | StateChange api _ _ _ _ _ =>
      bool_decide (tracking w api = Some (sub_id o))
  end.

(** One call made by a client of a bus that may have been destroyed. *)
Inductive lifetimeStep : Lifetime.t -> Lifetime.t -> Prop :=
| lifetime_subscribe id pattern f closure customData s s' :
    Lifetime.subscribe id pattern (Plain f) closure customData s = Some s' ->
    lifetimeStep s s'
| lifetime_unsubscribe id s :
    lifetimeStep s (Lifetime.unsubscribe id s)
| lifetime_unsubscribeAll s :
    lifetimeStep s (Lifetime.onBus unsubscribeAll s)
| lifetime_clearHistory s :
    lifetimeStep s (Lifetime.onBus clearHistory s)
| lifetime_send topic data metadata now s :
    lifetimeStep s (Lifetime.send topic data metadata now s)
| lifetime_destroy s :
    lifetimeStep s (Lifetime.destroy s).

(** The subject is stopped and has no observers. *)
Definition silent (s : Lifetime.t) : Prop :=
  Lifetime.isStopped s = true /\ observers (bus (Lifetime.world s)) = [].

(** What holds of every bus reached from a new one: its subject, once
    stopped, has no observers. *)
Definition sound (s : Lifetime.t) : Prop :=
  Lifetime.isStopped s = true -> observers (bus (Lifetime.world s)) = [].

(** The string with its ASCII letters in upper case. *)
Fixpoint upperCase (s : string) : string :=
  match s with
  | EmptyString => EmptyString
  | String c s' => String (RegExp.canonicalize c) (upperCase s')
  end.

(** A pattern made of [*] only. *)
Fixpoint onlyStars (pattern : string) : bool :=
  match pattern with
  | EmptyString => true
  | String c rest => Ascii.eqb c "*" && onlyStars rest
  end.

(** An atom and a regular expression with their letters in upper case. *)
Definition upperAtom (a : RegExp.atom) : RegExp.atom :=
  match a with
  | RegExp.Lit c => RegExp.Lit (RegExp.canonicalize c)
  | RegExp.Dot => RegExp.Dot
  end.

Definition upperPiece (p : RegExp.piece) : RegExp.piece :=
  match p with
  | RegExp.One a => RegExp.One (upperAtom a)
  | RegExp.Many a => RegExp.Many (upperAtom a)
  end.

Definition upperRegex (re : list RegExp.piece) : list RegExp.piece :=
  upperPiece <$> re.

(** ** Sample runs *)

Definition fn (name : string) : Fn :=
  {| fn_name := name; fn_throws := None |}.

Definition thrower (name : string) (e : JS.value) : Fn :=
  {| fn_name := name; fn_throws := Some e |}.

(** [subscribe(id, pattern, f)] on the bus of a world; a rejected pattern
    leaves the world as it is. *)
Definition subscribed (id pattern : string) (f : Fn) (w : World) : World :=
  match subscribe id pattern (Plain f) JS.Undefined JS.Undefined (bus w) with
  | Some b => setBus b w
  | None => w
  end.

(** A listener that throws, then one that does not, on the same topic. *)
Definition twoListeners : World :=
  subscribed "second" "A.B" (fn "L2")
    (subscribed "first" "A.B" (thrower "L1" (JS.Str "boom"))
       (newWorld None)).


Definition someCallbacks : WorkflowCallbacks :=
  {| onSuccess := Some (fn "onSuccess");
     onError := Some (fn "onError");
     onProgress := Some (fn "onProgress") |}.

(** One [WorkflowAPI] object for the workflow [W]. *)
Definition oneApi : World :=
  default (newWorld None) (newWorkflowAPI 0 "W" (newWorld None)).

(** [api.execute(...)] once, and twice on the same object. *)
Definition oneExecution : World :=
  default oneApi
    (execute 0 (JS.Obj [("x", JS.Num 1)]) someCallbacks None
       100 "aaaaaaaaa" 101 102 oneApi).

Definition twoExecutions : World :=
  default oneExecution
    (execute 0 (JS.Obj [("x", JS.Num 2)]) someCallbacks None
       200 "bbbbbbbbb" 201 202 oneExecution).

(** [publish('WF.W.STATE.CHANGE', {value: state, event: {data: payload}})] *)
Definition stateChange (state : string) (payload : JS.value) : Message :=
  {| msg_topic := "WF.W.STATE.CHANGE";
     msg_data :=
       JS.Obj [("value", JS.Str state);
               ("event", JS.Obj [("data", payload)])];
     msg_metadata := JS.Undefined;
     msg_now := 300 |}.

(** The subscriber that the [execute] call of [oneExecution] registers. *)
Definition executionSubscriber : Subscriber :=
  {| handle := 0;
     sub_id := "W.100.aaaaaaaaa";
     topicFilter := Exact "WF.W.STATE.CHANGE";
     listener := executionListener 0 someCallbacks None;
     closure := JS.Undefined;
     customData := JS.Undefined |}.


(** An execution configured with [successStates: ['DONE']]. *)
Definition customConfig : option WorkflowConfig :=
  Some {| cfg_successStates := Some ["DONE"]; cfg_errorStates := None |}.

Definition customExecution : World :=
  default oneApi
    (execute 0 JS.Null someCallbacks customConfig 100 "aaaaaaaaa" 101 102
       oneApi).

(** Two executions started through the builder, for the workflow [W]. *)
Definition builderW : WorkflowBuilder.t :=
  WorkflowBuilder.onSuccess (fn "onSuccess")
    (WorkflowBuilder.withParams (JS.Obj [("x", JS.Num 1)]) (workflow "W")).

Definition twoBuilderExecutions : World :=
  default (newWorld None)
    (w1 ← WorkflowBuilder.execute builderW 0 100 "aaaaaaaaa" 101 102
            (newWorld None);
     WorkflowBuilder.execute builderW 1 200 "bbbbbbbbb" 201 202 w1).

(** The first subscription that the builder registers in
    [twoBuilderExecutions]. *)
Definition builderSubscriber : Subscriber :=
  {| handle := 0;
     sub_id := "W.100.aaaaaaaaa";
     topicFilter := Exact "WF.W.STATE.CHANGE";
     listener :=
       executionListener 0 (WorkflowBuilder.callbacks builderW) None;
     closure := JS.Undefined;
     customData := JS.Undefined |}.

(** The state that the two [execute] calls on one object and a success
    event leave behind: the first execution's subscription, and an object
    that tracks nothing. *)
Definition afterReuse : World :=
  publish twoExecutions (stateChange "success" (JS.Obj [("y", JS.Num 2)])).

(** A bus destroyed after one subscription; a subscription after that. *)
Definition destroyedBus : Lifetime.t :=
  Lifetime.destroy
    (Lifetime.live (subscribed "first" "A.B" (fn "L1") (newWorld None))).

Definition lateSubscription : Lifetime.t :=
  default destroyedBus
    (Lifetime.subscribe "late" "A.B" (Plain (fn "L2")) JS.Undefined
       JS.Undefined destroyedBus).

(** ** Proof steps used more than once *)

(** Case analysis on every test and optional value of the goal. *)
Ltac case_branches :=
  repeat
    match goal with
    | |- context [if ?c then _ else _] => destruct c
    | |- context [match ?x with Some _ => _ | None => _ end] => destruct x
    end.

(** From [H : execute ... w = Some w']: the object [a] found, the bus [b']
    that [subscribe] returned ([Hsub]), and [w'] replaced by its value. *)
Ltac execute_inv H a b' Hsub :=
  unfold execute in H;
  match type of H with
  | context [apis ?w !! ?api] => destruct (apis w !! api) as [a|]
  end; simpl in H; [|discriminate];
  match type of H with
  | context [subscribe ?i ?p ?l ?c ?d ?b] =>
      destruct (subscribe i p l c d b) as [b'|] eqn:Hsub
  end; simpl in H; [|discriminate];
  injection H as <-.

(** * Properties *)

(** ** Frame lemmas *)

Section Frame.

Lemma frame_unsubscribe id b : frame (unsubscribe id b) = frame b.
Proof. unfold unsubscribe. destruct (mapGet id (subscriptions b)); reflexivity. Qed.

Lemma frame_unsubscribeAll b : frame (unsubscribeAll b) = frame b.
Proof. reflexivity. Qed.

Lemma frame_subscribe id pattern l c d b b' :
  subscribe id pattern l c d b = Some b' -> frame b' = frame b.
Proof.
  unfold subscribe. destruct (has id b); [congruence|].
  destruct (compileFilter pattern); simpl; [|congruence].
  intros [= <-]. reflexivity.
Qed.

Lemma frame_cleanup api w : frame (bus (cleanup api w)) = frame (bus w).
Proof.
  unfold cleanup.
  destruct (apis w !! api) as [a|]; [|reflexivity].
  destruct (subscriptionId a) as [id|]; [|reflexivity].
  destruct (String.eqb id ""); [reflexivity|].
  simpl. apply frame_unsubscribe.
Qed.

Lemma frame_stateChangeListener api ss es onS onE onP eventData w :
  frame (bus (stateChangeListener api ss es onS onE onP eventData w).1)
  = frame (bus w).
Proof.
  unfold stateChangeListener, call.
  case_branches; simpl; rewrite ?frame_cleanup; reflexivity.
Qed.

Lemma frame_invokeListener o event w :
  frame (bus (invokeListener o event w).1) = frame (bus w).
Proof.
  unfold invokeListener. destruct (listener o); [reflexivity|].
  rewrite frame_stateChangeListener. reflexivity.
Qed.

Lemma frame_subscriberNext event w o :
  frame (bus (subscriberNext event w o)) = frame (bus w).
Proof.
  unfold subscriberNext.
  destruct (closed o w); [reflexivity|].
  destruct (passes _ _); [|reflexivity].
  pose proof (frame_invokeListener o event w) as H.
  destruct (invokeListener o event w) as [w' [e|]]; exact H.
Qed.

Lemma frame_foldl_subscriberNext event os w :
  frame (bus (foldl (subscriberNext event) w os)) = frame (bus w).
Proof.
  revert w. induction os as [|o os IH]; intros w; simpl; [reflexivity|].
  rewrite IH. apply frame_subscriberNext.
Qed.

Lemma frame_subjectNext event w :
  frame (bus (subjectNext event w)) = frame (bus w).
Proof. apply frame_foldl_subscriberNext. Qed.

End Frame.

Lemma eventHistory_send topic data metadata now w :
  eventHistory (bus (send topic data metadata now w))
  = eventHistory
      (addToHistory
         {| topic := topic; data := data; timestamp := now;
            metadata := metadata |} (bus w)).
Proof.
  unfold send.
  pose proof (frame_subjectNext
    {| topic := topic; data := data; timestamp := now; metadata := metadata |}
    (setBus (addToHistory
      {| topic := topic; data := data; timestamp := now;
         metadata := metadata |} (bus w)) w)) as H.
  unfold frame in H. simpl in H. injection H as _ ? _. assumption.
Qed.

Lemma maxHistorySize_send topic data metadata now w :
  maxHistorySize (bus (send topic data metadata now w))
  = maxHistorySize (bus w).
Proof.
  unfold send.
  pose proof (frame_subjectNext
    {| topic := topic; data := data; timestamp := now; metadata := metadata |}
    (setBus (addToHistory
      {| topic := topic; data := data; timestamp := now;
         metadata := metadata |} (bus w)) w)) as H.
  unfold frame in H. simpl in H. injection H as _ _ ?. assumption.
Qed.

(** ** The history buffer *)

Section History.

Lemma lastN_all {A} n (l : list A) : length l <= n -> lastN n l = l.
Proof. intros H. unfold lastN. replace (length l - n) with 0 by lia. reflexivity. Qed.

Lemma lastN_length {A} n (l : list A) : length (lastN n l) = min n (length l).
Proof. unfold lastN. rewrite length_drop. lia. Qed.

Lemma lastN_snoc {A} n (l : list A) x :
  1 <= n -> lastN n (lastN n l ++ [x]) = lastN n (l ++ [x]).
Proof.
  intros Hn. unfold lastN at 1 3.
  rewrite !length_app, lastN_length. simpl.
  destruct (decide (length l <= n)) as [Hle|Hgt].
  - rewrite (lastN_all n l) by exact Hle. f_equal. lia.
  - unfold lastN.
    replace (n `min` length l + 1 - n) with 1 by lia.
    replace (length l + 1 - n) with (S (length l - n)) by lia.
    rewrite (drop_app_le l) by lia.
    rewrite (drop_app_le (drop _ l)) by (rewrite length_drop; lia).
    rewrite drop_drop. do 2 f_equal. lia.
Qed.

Lemma eventHistory_addToHistory e b :
  bounded b ->
  eventHistory (addToHistory e b)
  = lastN (Z.to_nat (maxHistorySize b)) (eventHistory b ++ [e]).
Proof.
  intros [H1 H2]. unfold addToHistory. simpl.
  rewrite length_app. simpl.
  destruct (Z.ltb_spec (maxHistorySize b)
              (Z.of_nat (length (eventHistory b) + 1))) as [Hlt|Hge].
  - unfold lastN. rewrite length_app. simpl.
    replace (length (eventHistory b) + 1 - Z.to_nat (maxHistorySize b))
      with 1 by lia.
    destruct (eventHistory b ++ [e]); reflexivity.
  - rewrite lastN_all; [reflexivity|]. rewrite length_app. simpl. lia.
Qed.

Lemma bounded_addToHistory e b : bounded b -> bounded (addToHistory e b).
Proof.
  intros Hb. pose proof (eventHistory_addToHistory e b Hb) as He.
  destruct Hb as [H1 H2]. split; [exact H1|].
  change (maxHistorySize (addToHistory e b)) with (maxHistorySize b).
  rewrite He, lastN_length. lia.
Qed.

Lemma bounded_frame b b' : frame b' = frame b -> bounded b -> bounded b'.
Proof.
  unfold frame, bounded. intros [= _ Hh Hm]. rewrite Hh, Hm. trivial.
Qed.

Lemma bounded_send topic data metadata now w :
  bounded (bus w) -> bounded (bus (send topic data metadata now w)).
Proof.
  intros Hb. unfold send.
  eapply bounded_frame; [apply frame_subjectNext|].
  simpl. apply bounded_addToHistory, Hb.
Qed.

Lemma bounded_step w w' : step w w' -> bounded (bus w) -> bounded (bus w').
Proof.
  intros Hs Hb. destruct Hs; simpl.
  - eapply bounded_frame; [eapply frame_subscribe; eassumption|exact Hb].
  - eapply bounded_frame; [apply frame_unsubscribe|exact Hb].
  - exact Hb.
  - destruct Hb as [H1 _]. split; simpl; lia.
  - apply bounded_send, Hb.
  - unfold newWorkflowAPI in H. destruct (apis w !! api); [discriminate|].
    injection H as <-. exact Hb.
  - execute_inv H a b' Hsub.
    do 2 apply bounded_send. simpl.
    eapply bounded_frame; [eapply frame_subscribe; eassumption|exact Hb].
  - unfold cancel. eapply bounded_frame; [apply frame_cleanup|exact Hb].
Qed.

Lemma bounded_rtc w w' : rtc step w w' -> bounded (bus w) -> bounded (bus w').
Proof. induction 1; eauto using bounded_step. Qed.

Lemma maxHistorySize_step w w' :
  step w w' -> maxHistorySize (bus w') = maxHistorySize (bus w).
Proof.
  assert (Hf : forall b b', frame b' = frame b ->
                 maxHistorySize b' = maxHistorySize b).
  { unfold frame. intros b b' [= _ _ Hm]. exact Hm. }
  intros Hs. destruct Hs; simpl.
  - eapply Hf, frame_subscribe; eassumption.
  - apply Hf, frame_unsubscribe.
  - reflexivity.
  - reflexivity.
  - apply maxHistorySize_send.
  - unfold newWorkflowAPI in H. destruct (apis w !! api); [discriminate|].
    injection H as <-. reflexivity.
  - execute_inv H a b' Hsub.
    rewrite !maxHistorySize_send. simpl.
    eapply Hf, frame_subscribe; eassumption.
  - unfold cancel. apply Hf, frame_cleanup.
Qed.

Lemma maxHistorySize_rtc w w' :
  rtc step w w' -> maxHistorySize (bus w') = maxHistorySize (bus w).
Proof.
  induction 1 as [|w1 w2 w3 Hs _ IH]; [reflexivity|].
  rewrite IH. apply maxHistorySize_step, Hs.
Qed.

Lemma eventHistory_publishAll ms w :
  bounded (bus w) ->
  eventHistory (bus (publishAll ms w))
  = lastN (Z.to_nat (maxHistorySize (bus w)))
      (eventHistory (bus w) ++ (eventOf <$> ms)).
Proof.
  revert w. induction ms as [|m ms IH] using rev_ind; intros w Hb.
  - simpl. rewrite app_nil_r. symmetry. apply lastN_all.
    destruct Hb. lia.
  - unfold publishAll in *. rewrite foldl_app. simpl.
    unfold publish at 1. rewrite eventHistory_send.
    assert (Hb' : bounded (bus (foldl publish w ms))).
    { clear IH. revert w Hb. induction ms as [|m' ms IH]; intros w Hb; simpl.
      - exact Hb.
      - apply IH. apply bounded_send, Hb. }
    rewrite eventHistory_addToHistory by exact Hb'.
    assert (Hm : maxHistorySize (bus (foldl publish w ms))
                 = maxHistorySize (bus w)).
    { clear. revert w. induction ms as [|m' ms IH]; intros w; simpl.
      - reflexivity.
      - rewrite IH. apply maxHistorySize_send. }
    rewrite Hm, IH by exact Hb.
    rewrite fmap_app, app_assoc. simpl.
    apply lastN_snoc. destruct Hb. lia.
Qed.

End History.

(** C4, counterexample: a bus constructed with [maxHistorySize = 0] runs with
    the default bound of 100 ([0 || 100]) and holds the one event published,
    which is more than [0]. *)
Lemma history_exceeds_zero : ~ history_never_exceeds 0.
Proof.
  intros H.
  specialize (H [{| msg_topic := "T"; msg_data := JS.Null;
                    msg_metadata := JS.Undefined; msg_now := 0%Z |}]).
  vm_compute in H. apply H. reflexivity.
Qed.

(** C4, amended: for a bus constructed with [maxHistorySize = N], [N >= 1],
    in every state the program reaches the history holds at most [N] events;
    publishing any sequence of events from there leaves the last [N] of the
    events held and published, in insertion order; in particular publishing
    [N + 5] events on the new bus leaves those after the first five. *)
Theorem history_bound (N : Z) (dbg : option bool) (w : World) :
  (1 <= N)%Z ->
  reachable_from
    (Some {| opt_debug := dbg; opt_maxHistorySize := Some N |}) w ->
  (Z.of_nat (length (eventHistory (bus w))) <= N)%Z /\
  (forall ms,
     eventHistory (bus (publishAll ms w))
     = lastN (Z.to_nat N) (eventHistory (bus w) ++ (eventOf <$> ms))) /\
  (forall ms,
     length ms = (Z.to_nat N + 5)%nat ->
     eventHistory
       (bus (publishAll ms
               (newWorld
                  (Some {| opt_debug := dbg; opt_maxHistorySize := Some N |}))))
     = drop 5 (eventOf <$> ms)).
Proof.
  intros HN Hr.
  set (w0 := newWorld
               (Some {| opt_debug := dbg; opt_maxHistorySize := Some N |})) in *.
  assert (Hm0 : maxHistorySize (bus w0) = N).
  { simpl. destruct (Z.eqb_spec N 0); [lia|reflexivity]. }
  assert (Hb0 : bounded (bus w0)).
  { split; rewrite Hm0; simpl; lia. }
  assert (Hb : bounded (bus w)) by (eapply bounded_rtc; eassumption).
  assert (Hm : maxHistorySize (bus w) = N).
  { rewrite <- Hm0. apply maxHistorySize_rtc, Hr. }
  split; [|split].
  - destruct Hb as [_ Hb]. rewrite Hm in Hb. exact Hb.
  - intros ms. rewrite eventHistory_publishAll by exact Hb.
    rewrite Hm. reflexivity.
  - intros ms Hlen. rewrite eventHistory_publishAll by exact Hb0.
    rewrite Hm0. simpl. unfold lastN.
    rewrite length_fmap, Hlen. f_equal. lia.
Qed.

(** C4, witness: a bound of two, and a state reached by one [send]. *)
Lemma history_bound_witness :
  let w := send "T" JS.Null JS.Undefined 0
             (newWorld (Some {| opt_debug := None;
                                opt_maxHistorySize := Some 2%Z |})) in
  (Z.of_nat (length (eventHistory (bus w))) <= 2)%Z.
Proof.
  intros w.
  refine (proj1 (history_bound 2 None w _ _)).
  - lia.
  - apply rtc_once. apply step_send.
Defined.

(** ** The registry: map and subject stay in step *)

Section Registry.

Lemma has_spec id b : has id b = true <-> id ∈ getActiveSubscriptions b.
Proof.
  unfold has, getActiveSubscriptions.
  induction (subscriptions b) as [|[k h] m IH]; simpl.
  - split; [discriminate|]. intros H. inversion H.
  - rewrite orb_true_iff, IH, elem_of_cons, String.eqb_eq. intuition auto.
Qed.

Lemma mapGet_entry id (os : list Subscriber) :
  mapGet id (entry <$> os)
  = handle <$> head (filter (fun o => sub_id o = id) os).
Proof.
  induction os as [|o os IH]; simpl; [reflexivity|].
  rewrite filter_cons.
  destruct (String.eqb_spec (sub_id o) id) as [He|Hne].
  - rewrite decide_True by exact He. reflexivity.
  - rewrite decide_False by exact Hne. exact IH.
Qed.

Lemma fmap_inj_on {A B} (f : A -> B) (l : list A) x y :
  NoDup (f <$> l) -> x ∈ l -> y ∈ l -> f x = f y -> x = y.
Proof.
  induction l as [|a l IH]; simpl; intros Hnd Hx Hy Hf.
  - inversion Hx.
  - apply NoDup_cons in Hnd as [Hna Hnd].
    apply elem_of_cons in Hx as [->|Hx], Hy as [->|Hy]; auto.
    + exfalso. apply Hna. rewrite Hf. apply list_elem_of_fmap_2, Hy.
    + exfalso. apply Hna. rewrite <- Hf. apply list_elem_of_fmap_2, Hx.
Qed.

Lemma filter_entry (P : Subscriber -> Prop) (Q : string * nat -> Prop)
    `{!forall o, Decision (P o)} `{!forall kv, Decision (Q kv)}
    (os : list Subscriber) :
  (forall o, o ∈ os -> (P o <-> Q (entry o))) ->
  filter Q (entry <$> os) = entry <$> filter P os.
Proof.
  induction os as [|o os IH]; intros Hall; [reflexivity|].
  rewrite fmap_cons, !filter_cons.
  assert (Ho : P o <-> Q (entry o)) by (apply Hall; left).
  assert (IH' : filter Q (entry <$> os) = entry <$> filter P os).
  { apply IH. intros o' Ho'. apply Hall. right. exact Ho'. }
  destruct (decide (P o)) as [HP|HP], (decide (Q (entry o))) as [HQ|HQ];
    rewrite ?fmap_cons, ?IH'; try reflexivity; tauto.
Qed.

Lemma consistent_filter (P : Subscriber -> Prop)
    `{!forall o, Decision (P o)} b b' :
  consistent b ->
  observers b' = filter P (observers b) ->
  subscriptions b' = entry <$> observers b' ->
  nextHandle b' = nextHandle b ->
  consistent b'.
Proof.
  intros (Hs & Hi & Hh & Hn) Ho Hs' Hn'. unfold consistent.
  rewrite Hs', Ho, Hn'. split; [reflexivity|].
  split; [|split].
  - eapply sublist_NoDup; [exact Hi|apply fmap_sublist, sublist_filter].
  - eapply sublist_NoDup; [exact Hh|apply fmap_sublist, sublist_filter].
  - rewrite Forall_forall in Hn |- *.
    intros o [_ Hin]%list_elem_of_filter. apply Hn, Hin.
Qed.


Lemma mapGet_Some id h b :
  consistent b -> mapGet id (subscriptions b) = Some h ->
  exists o, o ∈ observers b /\ sub_id o = id /\ handle o = h.
Proof.
  intros (Hs & _) Hg. rewrite Hs, mapGet_entry in Hg.
  destruct (head _) as [o|] eqn:Hh; [|discriminate].
  injection Hg as <-. exists o.
  apply head_Some_elem_of, list_elem_of_filter in Hh as [Hid Hin]. auto.
Qed.

Lemma mapGet_None id b :
  consistent b -> mapGet id (subscriptions b) = None ->
  id ∉ getActiveSubscriptions b.
Proof.
  intros _ Hg Hin. unfold getActiveSubscriptions in Hin.
  induction (subscriptions b) as [|[k h] m IH]; [inversion Hin|].
  simpl in *. destruct (String.eqb_spec k id); [discriminate|].
  apply elem_of_cons in Hin as [->|Hin]; [congruence|auto].
Qed.

Lemma getActiveSubscriptions_observers b :
  consistent b -> getActiveSubscriptions b = sub_id <$> observers b.
Proof.
  intros (Hs & _). unfold getActiveSubscriptions. rewrite Hs.
  rewrite <- list_fmap_compose. reflexivity.
Qed.

Lemma consistent_unsubscribe id b : consistent b -> consistent (unsubscribe id b).
Proof.
  intros Hc. unfold unsubscribe.
  destruct (mapGet id (subscriptions b)) as [h|] eqn:Hg; [|exact Hc].
  destruct (mapGet_Some _ _ _ Hc Hg) as (o0 & Hin0 & Hid0 & Hh0).
  apply (consistent_filter (fun o => handle o ≠ h) b); auto.
  simpl. destruct Hc as (Hs & Hi & Hh & _). rewrite Hs.
  apply filter_entry. intros o Hin. simpl.
  split; intros Hne Heq; apply Hne.
  - assert (o = o0) by (eapply (fmap_inj_on sub_id); eauto; congruence).
    congruence.
  - assert (o = o0) by (eapply (fmap_inj_on handle); eauto; congruence).
    congruence.
Qed.

Lemma filter_none {A} (P : A -> Prop) `{!forall x, Decision (P x)}
    (l : list A) :
  (forall x, x ∈ l -> ~ P x) -> filter P l = [].
Proof.
  induction l as [|x l IH]; intros Hl; [reflexivity|].
  rewrite filter_cons_False by (apply Hl; left).
  apply IH. intros y Hy. apply Hl. right. exact Hy.
Qed.

Lemma observers_unsubscribeAll b :
  consistent b -> observers (unsubscribeAll b) = [].
Proof.
  intros (Hs & _). simpl. apply filter_none.
  intros o Hin Hn. apply Hn. rewrite Hs, <- list_fmap_compose.
  apply (list_elem_of_fmap_2 (snd ∘ entry)), Hin.
Qed.

Lemma consistent_unsubscribeAll b : consistent b -> consistent (unsubscribeAll b).
Proof.
  intros Hc. unfold consistent.
  rewrite (observers_unsubscribeAll b Hc). simpl.
  repeat split; constructor.
Qed.

Lemma consistent_subscribe id pattern l c d b b' :
  subscribe id pattern l c d b = Some b' -> consistent b -> consistent b'.
Proof.
  unfold subscribe. intros Hsub Hc.
  destruct (has id b) eqn:Hhas; [congruence|].
  destruct (compileFilter pattern) as [f|]; simpl in Hsub; [|discriminate].
  injection Hsub as <-.
  assert (Hid : id ∉ sub_id <$> observers b).
  { rewrite <- getActiveSubscriptions_observers by exact Hc.
    rewrite <- has_spec. congruence. }
  destruct Hc as (Hs & Hi & Hh & Hn). unfold consistent. simpl.
  rewrite Hs, !fmap_app. simpl. split; [reflexivity|].
  split; [|split].
  - apply NoDup_app. split; [exact Hi|]. split; [|apply NoDup_singleton].
    intros x Hx ->%list_elem_of_singleton. contradiction.
  - apply NoDup_app. split; [exact Hh|]. split; [|apply NoDup_singleton].
    intros x Hx ->%list_elem_of_singleton.
    apply list_elem_of_fmap in Hx as (o & Ho & Hin).
    rewrite Forall_forall in Hn. specialize (Hn o Hin). lia.
  - apply Forall_app. split.
    + eapply Forall_impl; [exact Hn|]. simpl. intros. lia.
    + constructor; [simpl; lia|constructor].
Qed.

Lemma consistent_frame b b' :
  observers b' = observers b -> subscriptions b' = subscriptions b ->
  nextHandle b' = nextHandle b -> consistent b -> consistent b'.
Proof. unfold consistent. intros -> -> ->. trivial. Qed.


End Registry.

(** ** Delivery: what one [Subject.next] preserves *)

(** A property of the state that [cleanup], the call log and the report of an
    unhandled error preserve is preserved by every listener, hence by the
    delivery of an event. *)
Section Delivery.

Variable P : World -> Prop.
Hypothesis P_cleanup : forall api w, P w -> P (cleanup api w).
Hypothesis P_record : forall e w, P w -> P (record e w).
Hypothesis P_report : forall e w, P w -> P (reportUnhandledError e w).

Lemma delivery_stateChangeListener api ss es onS onE onP eventData w :
  P w -> P (stateChangeListener api ss es onS onE onP eventData w).1.
Proof.
  intros Hw. unfold stateChangeListener, call.
  case_branches; simpl; auto.
Qed.

Lemma delivery_invokeListener o event w :
  P w -> P (invokeListener o event w).1.
Proof.
  intros Hw. unfold invokeListener.
  destruct (listener o); simpl; [auto|].
  apply delivery_stateChangeListener. auto.
Qed.

Lemma delivery_subscriberNext event w o :
  P w -> P (subscriberNext event w o).
Proof.
  intros Hw. unfold subscriberNext.
  destruct (closed o w); [exact Hw|].
  destruct (passes _ _); [|exact Hw].
  pose proof (delivery_invokeListener o event w Hw) as H.
  destruct (invokeListener o event w) as [w' [e|]]; simpl in H; auto.
Qed.

Lemma delivery_foldl event os w :
  P w -> P (foldl (subscriberNext event) w os).
Proof.
  revert w. induction os as [|o os IH]; intros w Hw; simpl; [exact Hw|].
  apply IH, delivery_subscriberNext, Hw.
Qed.

Lemma delivery_subjectNext event w : P w -> P (subjectNext event w).
Proof. apply delivery_foldl. Qed.

End Delivery.

Section Reachable.

Lemma consistent_cleanup api w :
  consistent (bus w) -> consistent (bus (cleanup api w)).
Proof.
  intros Hc. unfold cleanup.
  destruct (apis w !! api) as [a|]; [|exact Hc].
  destruct (subscriptionId a) as [id|]; [|exact Hc].
  destruct (String.eqb id ""); [exact Hc|].
  simpl. apply consistent_unsubscribe, Hc.
Qed.

Lemma consistent_send topic data metadata now w :
  consistent (bus w) -> consistent (bus (send topic data metadata now w)).
Proof.
  intros Hc. unfold send.
  apply (delivery_subjectNext (fun w => consistent (bus w)));
    auto using consistent_cleanup.
Qed.

Lemma consistent_step w w' :
  step w w' -> consistent (bus w) -> consistent (bus w').
Proof.
  intros Hs Hc. destruct Hs; simpl.
  - eapply consistent_subscribe; eassumption.
  - apply consistent_unsubscribe, Hc.
  - apply consistent_unsubscribeAll, Hc.
  - exact Hc.
  - apply consistent_send, Hc.
  - unfold newWorkflowAPI in H. destruct (apis w !! api); [discriminate|].
    injection H as <-. exact Hc.
  - execute_inv H a b' Hsub.
    do 2 apply consistent_send. simpl.
    eapply consistent_subscribe; [exact Hsub|exact Hc].
  - apply consistent_cleanup, Hc.
Qed.

Lemma consistent_newEventBus options : consistent (newEventBus options).
Proof. repeat split; constructor. Qed.

Lemma consistent_reachable options w :
  reachable_from options w -> consistent (bus w).
Proof.
  unfold reachable_from. intros Hr.
  assert (Hc : consistent (bus (newWorld options)))
    by apply consistent_newEventBus.
  revert Hc. induction Hr; eauto using consistent_step.
Qed.

End Reachable.

(** ** Delivery to caller-supplied listeners *)

Section PlainDelivery.

Lemma closed_false o w :
  handle o ∈ handle <$> observers (bus w) -> closed o w = false.
Proof.
  intros Hin. unfold closed. apply bool_decide_eq_false. tauto.
Qed.

Lemma subscriberNext_plain event w o f :
  listener o = Plain f ->
  handle o ∈ handle <$> observers (bus w) ->
  passes (topicFilter o) (topic event) = true ->
  subscriberNext event w o
  = {| bus := bus w; apis := apis w;
       log := log w ++ [deliveredEntry event o];
       unhandled := unhandled w ++ option_list (thrown o) |}.
Proof.
  intros Hl Hin Hp. unfold subscriberNext, invokeListener, thrown.
  rewrite closed_false by exact Hin. rewrite Hp, Hl.
  destruct (fn_throws f); simpl; [reflexivity|].
  rewrite app_nil_r. reflexivity.
Qed.

Lemma subscriberNext_open event w o :
  handle o ∈ handle <$> observers (bus w) ->
  passes (topicFilter o) (topic event) = true ->
  subscriberNext event w o
  = match invokeListener o event w with
    | (w', None) => w'
    | (w', Some e) => reportUnhandledError e w'
    end.
Proof.
  intros Hin Hp. unfold subscriberNext.
  rewrite closed_false by exact Hin. rewrite Hp. reflexivity.
Qed.

Lemma subscriberNext_skip event w o :
  passes (topicFilter o) (topic event) = false ->
  subscriberNext event w o = w.
Proof.
  intros Hp. unfold subscriberNext. rewrite Hp.
  destruct (closed o w); reflexivity.
Qed.

(** Visiting subscribers whose matching members are plain and still
    subscribed: the bus and the objects are untouched, every matching one is
    delivered to, in order, and what they throw is reported. *)
Lemma foldl_plain event os w :
  (forall o, o ∈ os -> passes (topicFilter o) (topic event) = true ->
             plain o /\ handle o ∈ handle <$> observers (bus w)) ->
  foldl (subscriberNext event) w os
  = {| bus := bus w; apis := apis w;
       log := log w ++ (deliveredEntry event <$> matching (topic event) os);
       unhandled := unhandled w ++ omap thrown (matching (topic event) os) |}.
Proof.
  revert w. induction os as [|o os IH]; intros w Hos.
  - simpl. rewrite !app_nil_r. destruct w; reflexivity.
  - simpl. unfold matching. rewrite filter_cons.
    destruct (passes (topicFilter o) (topic event)) eqn:Hp.
    + destruct (Hos o) as [[f Hf] Hin]; [left|exact Hp|].
      rewrite (subscriberNext_plain event w o f Hf Hin Hp).
      rewrite IH.
      * simpl. repeat case_decide; try congruence. simpl.
        rewrite <- !app_assoc. unfold matching.
        destruct (thrown o); reflexivity.
      * simpl. intros o' Ho' Hp'. apply Hos; [right; exact Ho'|exact Hp'].
    + rewrite subscriberNext_skip by exact Hp.
      repeat case_decide; try congruence.
      apply IH. intros o' Ho' Hp'. apply Hos; [right; exact Ho'|exact Hp'].
Qed.

Lemma send_plain topic data metadata now w :
  let event := {| topic := topic; data := data; timestamp := now;
                  metadata := metadata |} in
  (forall o, o ∈ matching topic (observers (bus w)) -> plain o) ->
  send topic data metadata now w
  = {| bus := addToHistory event (bus w); apis := apis w;
       log := log w ++
              (deliveredEntry event <$> matching topic (observers (bus w)));
       unhandled := unhandled w ++
                    omap thrown (matching topic (observers (bus w))) |}.
Proof.
  intros event Hplain. unfold send, subjectNext. fold event.
  rewrite foldl_plain; [reflexivity|].
  simpl. intros o Hin Hp. split.
  - apply Hplain. apply list_elem_of_filter. auto.
  - apply list_elem_of_fmap_2, Hin.
Qed.

End PlainDelivery.

(** ** Delivery in general: listeners that unsubscribe *)

Section GeneralDelivery.

Lemma log_cleanup api w : log (cleanup api w) = log w.
Proof.
  unfold cleanup.
  destruct (apis w !! api) as [a|]; [|reflexivity].
  destruct (subscriptionId a) as [id|]; [|reflexivity].
  destruct (String.eqb id ""); reflexivity.
Qed.

Lemma observers_unsubscribe_sublist id b :
  observers (unsubscribe id b) `sublist_of` observers b.
Proof.
  unfold unsubscribe. destruct (mapGet id (subscriptions b)); simpl.
  - apply sublist_filter.
  - reflexivity.
Qed.

Lemma observers_cleanup_sublist api w :
  observers (bus (cleanup api w)) `sublist_of` observers (bus w).
Proof.
  unfold cleanup.
  destruct (apis w !! api) as [a|]; [|reflexivity].
  destruct (subscriptionId a) as [id|]; [|reflexivity].
  destruct (String.eqb id ""); [reflexivity|].
  simpl. apply observers_unsubscribe_sublist.
Qed.

(** Delivery only ever removes subscribers. *)
Lemma observers_foldl_sublist event os w :
  observers (bus (foldl (subscriberNext event) w os))
  `sublist_of` observers (bus w).
Proof.
  apply (delivery_foldl
           (fun w' => observers (bus w') `sublist_of` observers (bus w))).
  - intros api w' Hw'. etrans; [apply observers_cleanup_sublist|exact Hw'].
  - intros e w' Hw'. exact Hw'.
  - intros e w' Hw'. exact Hw'.
  - reflexivity.
Qed.




End GeneralDelivery.

(** ** Publishing *)

Lemma reachable_twoExecutions : reachable_from None twoExecutions.
Proof.
  unfold reachable_from.
  eapply rtc_l; [eapply (step_newWorkflowAPI 0 "W"); reflexivity|].
  eapply rtc_l;
    [eapply (step_execute 0 (JS.Obj [("x", JS.Num 1)]) someCallbacks None
               100 "aaaaaaaaa" 101 102); reflexivity|].
  eapply rtc_l;
    [eapply (step_execute 0 (JS.Obj [("x", JS.Num 2)]) someCallbacks None
               200 "bbbbbbbbb" 201 202); reflexivity|].
  apply rtc_refl.
Qed.






(** ** Subscribing *)

Lemma filter_unique {A B} `{EqDecision B} (f : A -> B) (l : list A) y :
  NoDup (f <$> l) -> y ∈ f <$> l ->
  exists x, filter (fun x => f x = y) l = [x].
Proof.
  induction l as [|a l IH]; intros Hnd Hin; [inversion Hin|].
  rewrite fmap_cons in Hnd, Hin. apply NoDup_cons in Hnd as [Hna Hnd].
  rewrite filter_cons. destruct (decide (f a = y)) as [<-|Hne].
  - exists a. f_equal. apply filter_none.
    intros x Hx Heq. apply Hna. rewrite <- Heq.
    apply list_elem_of_fmap_2, Hx.
  - apply elem_of_cons in Hin as [Heq|Hin]; [congruence|].
    apply IH; assumption.
Qed.

(** C3: in every state the program reaches, [subscribe] with an id that is
    already present returns without an error and leaves the bus, hence the
    existing subscription, exactly as it was; the active ids are pairwise
    distinct and exactly one subscriber carries the id. *)
Theorem subscribe_existing_id (options : option Options) (w : World)
    (id pattern : string) (l : Listener) (closure customData : JS.value) :
  reachable_from options w ->
  id ∈ getActiveSubscriptions (bus w) ->
  subscribe id pattern l closure customData (bus w) = Some (bus w) /\
  NoDup (getActiveSubscriptions (bus w)) /\
  exists o, filter (fun o => sub_id o = id) (observers (bus w)) = [o].
Proof.
  intros Hr Hin.
  pose proof (consistent_reachable options w Hr) as Hc.
  split; [|split].
  - unfold subscribe. apply has_spec in Hin. rewrite Hin. reflexivity.
  - rewrite getActiveSubscriptions_observers by exact Hc. apply Hc.
  - rewrite getActiveSubscriptions_observers in Hin by exact Hc.
    apply filter_unique; [apply Hc|exact Hin].
Qed.

(** C3, witness: a second [subscribe] under the id [first], with another
    pattern and another listener. *)
Lemma subscribe_existing_id_witness :
  let w := subscribed "first" "A.B" (fn "L1") (newWorld None) in
  subscribe "first" "Z.*" (Plain (fn "L2")) JS.Null JS.Null (bus w)
  = Some (bus w).
Proof.
  intros w.
  refine (proj1 (subscribe_existing_id None w "first" "Z.*" (Plain (fn "L2"))
                   JS.Null JS.Null _ _)).
  - apply rtc_once.
    exact (step_subscribe "first" "A.B" (fn "L1") JS.Undefined JS.Undefined
             (newWorld None) (bus w) eq_refl).
  - vm_compute. left.
Defined.

(** ** Exact patterns *)

Lemma compileFilter_exact pattern :
  includesStar pattern = false -> compileFilter pattern = Some (Exact pattern).
Proof. unfold compileFilter. intros ->. reflexivity. Qed.

Lemma deliveredTo_fresh event id (os : list Subscriber) :
  id ∉ sub_id <$> os ->
  filter (fun e => deliveredTo id e = true) (deliveredEntry event <$> os) = [].
Proof.
  intros Hid. apply filter_none.
  intros e (o & -> & Ho)%list_elem_of_fmap Hd. simpl in Hd.
  apply String.eqb_eq in Hd. apply Hid. rewrite <- Hd.
  apply list_elem_of_fmap_2, Ho.
Qed.

(** C8: a pattern without [*] matches a topic exactly when the two strings
    are equal.  Subscribing a listener under a fresh id with such a pattern
    and publishing once delivers to it exactly once, with the published
    topic and data, when the topic is the pattern, and not at all when it is
    not (the other listeners matching the topic being caller-supplied
    functions). *)
Theorem exact_match (pattern : string) :
  includesStar pattern = false ->
  (forall topic, matches pattern topic = Some (bool_decide (pattern = topic))) /\
  (forall w id f c d topic x metadata now,
     consistent (bus w) ->
     id ∉ getActiveSubscriptions (bus w) ->
     (forall o, o ∈ matching topic (observers (bus w)) -> plain o) ->
     exists b',
       subscribe id pattern (Plain f) c d (bus w) = Some b' /\
       let w1 := setBus b' w in
       filter (fun e => deliveredTo id e = true)
         (newEntries w1 (send topic x metadata now w1))
       = if decide (pattern = topic) then [Delivered id topic x c d] else []).
Proof.
  intros Hstar. split.
  - intros topic. unfold matches. rewrite compileFilter_exact by exact Hstar.
    simpl. f_equal. destruct (String.eqb_spec topic pattern) as [->|Hne].
    + symmetry. apply bool_decide_eq_true. reflexivity.
    + symmetry. apply bool_decide_eq_false. congruence.
  - intros w id f c d topic x metadata now Hc Hid Hplain.
    unfold subscribe.
    destruct (has id (bus w)) eqn:Hhas;
      [apply has_spec in Hhas; contradiction|].
    rewrite compileFilter_exact by exact Hstar. simpl.
    eexists. split; [reflexivity|]. simpl.
    set (o := {| handle := nextHandle (bus w); sub_id := id;
                 topicFilter := Exact pattern; listener := Plain f;
                 closure := c; customData := d |}).
    set (w1 := setBus _ w).
    assert (Hm : matching topic (observers (bus w1))
                 = matching topic (observers (bus w)) ++
                   (if decide (pattern = topic) then [o] else [])).
    { unfold matching. simpl. rewrite filter_app. f_equal.
      rewrite filter_cons, filter_nil. simpl.
      destruct (String.eqb_spec topic pattern) as [->|Hne].
      - rewrite !decide_True by reflexivity. reflexivity.
      - rewrite decide_False by discriminate.
        rewrite decide_False by congruence. reflexivity. }
    clearbody w1. rewrite send_plain.
    + unfold newEntries. cbn [log]. rewrite drop_app_length.
      rewrite Hm, fmap_app, filter_app.
      rewrite deliveredTo_fresh
        by (intros Hin; apply Hid;
            rewrite getActiveSubscriptions_observers by exact Hc;
            eapply elem_of_sublist; [exact Hin|];
            apply fmap_sublist, sublist_filter).
      simpl. destruct (decide (pattern = topic)); [|reflexivity].
      simpl. rewrite filter_cons, decide_True; [reflexivity|].
      simpl. apply String.eqb_refl.
    + rewrite Hm. intros o' [Ho'|Ho']%elem_of_app; [auto|].
      destruct (decide (pattern = topic)); [|inversion Ho'].
      apply list_elem_of_singleton in Ho' as ->. exists f. reflexivity.
Qed.

(** C8, witness: a listener on [A.B] of a new bus; an event on [A.B] is
    delivered to it once, an event on [A.C] is not. *)
Lemma exact_match_witness :
  matches "A.B" "A.B" = Some true /\
  matches "A.B" "A.C" = Some false /\
  (let w := subscribed "id" "A.B" (fn "L") (newWorld None) in
   newEntries w (send "A.B" (JS.Num 7) JS.Undefined 5 w)
   = [Delivered "id" "A.B" (JS.Num 7) JS.Undefined JS.Undefined] /\
   newEntries w (send "A.C" (JS.Num 7) JS.Undefined 5 w) = []).
Proof.
  destruct (exact_match "A.B" eq_refl) as [Hm Hd].
  split; [exact (Hm "A.B")|]. split; [exact (Hm "A.C")|].
  assert (Hc : consistent (bus (newWorld None)))
    by apply consistent_newEventBus.
  assert (Hid : "id" ∉ getActiveSubscriptions (bus (newWorld None)))
    by (intros Hin; inversion Hin).
  assert (Hp : forall t o,
            o ∈ matching t (observers (bus (newWorld None))) -> plain o)
    by (intros t o Ho; inversion Ho).
  destruct (Hd (newWorld None) "id" (fn "L") JS.Undefined JS.Undefined
              "A.B" (JS.Num 7) JS.Undefined 5%Z Hc Hid (Hp "A.B"))
    as (b1 & Hs1 & Hf1).
  destruct (Hd (newWorld None) "id" (fn "L") JS.Undefined JS.Undefined
              "A.C" (JS.Num 7) JS.Undefined 5%Z Hc Hid (Hp "A.C"))
    as (b2 & Hs2 & Hf2).
  injection Hs1 as <-. injection Hs2 as <-.
  split; [exact Hf1|exact Hf2].
Defined.

(** ** Unsubscribing *)

(** C10: [unsubscribe(id)], for a present or an absent id, and
    [unsubscribeAll()] leave the event history as it was: [getHistory]
    answers the same events, and the bound and the debug flag are unchanged;
    neither touches the workflow objects or the call log. *)
Theorem unsubscribe_keeps_history (b : EventBus) (id : string)
    (topic' : option string) :
  getHistory topic' (unsubscribe id b) = getHistory topic' b /\
  getHistory topic' (unsubscribeAll b) = getHistory topic' b /\
  frame (unsubscribe id b) = frame b /\
  frame (unsubscribeAll b) = frame b.
Proof.
  pose proof (frame_unsubscribe id b) as Hf.
  assert (He : eventHistory (unsubscribe id b) = eventHistory b).
  { unfold frame in Hf. injection Hf as _ ? _. assumption. }
  repeat split; try exact Hf.
  unfold getHistory. rewrite He. reflexivity.
Qed.

(** ** The workflow listener *)

Section Workflow.

Lemma includes_object states eventData :
  JS.includes states (JS.getOpt eventData "value") = true ->
  JS.get eventData "event" = Some (JS.getOpt eventData "event").
Proof. destruct eventData; simpl; try discriminate. reflexivity. Qed.


Lemma cleanup_tracked api a id w :
  apis w !! api = Some a -> subscriptionId a = Some id -> id ≠ "" ->
  cleanup api w
  = setApi api {| workflowName := workflowName a; subscriptionId := None |}
      (setBus (unsubscribe id (bus w)) w).
Proof.
  intros Ha Hid Hne. unfold cleanup. rewrite Ha, Hid.
  destruct (String.eqb_spec id ""); [contradiction|reflexivity].
Qed.



Lemma consistent_addToHistory e b : consistent b -> consistent (addToHistory e b).
Proof. apply consistent_frame; reflexivity. Qed.

Lemma NoDup_middle {A B} (f : A -> B) (pre post : list A) (o : A) :
  NoDup (f <$> (pre ++ o :: post)) ->
  forall x, x ∈ pre ++ post -> f x ≠ f o.
Proof.
  rewrite fmap_app, fmap_cons. intros Hnd x Hx Heq.
  apply NoDup_app in Hnd as (_ & Hdisj & Hpost).
  apply NoDup_cons in Hpost as [Hnin _].
  apply elem_of_app in Hx as [Hx|Hx].
  - apply (Hdisj (f x)); [apply list_elem_of_fmap_2, Hx|].
    rewrite Heq. left.
  - apply Hnin. rewrite <- Heq. apply list_elem_of_fmap_2, Hx.
Qed.

Lemma filter_middle {A} (P : A -> Prop) `{!forall x, Decision (P x)}
    (pre post : list A) (o : A) :
  ~ P o -> (forall x, x ∈ pre ++ post -> P x) ->
  filter P (pre ++ o :: post) = pre ++ post.
Proof.
  intros Ho Hall.
  assert (Hid : forall l : list A, (forall x, x ∈ l -> P x) -> filter P l = l).
  { induction l as [|x l IH]; intros Hl; [reflexivity|].
    rewrite filter_cons_True by (apply Hl; left).
    f_equal. apply IH. intros y Hy. apply Hl. right. exact Hy. }
  rewrite filter_app, filter_cons_False by exact Ho.
  rewrite !Hid; [reflexivity| |];
    intros x Hx; apply Hall, elem_of_app; auto.
Qed.

(** Unsubscribing a present subscription removes it, and nothing else, from
    the subject and from the map. *)
Lemma unsubscribe_present b pre o post :
  consistent b -> observers b = pre ++ o :: post ->
  observers (unsubscribe (sub_id o) b) = pre ++ post /\
  getActiveSubscriptions (unsubscribe (sub_id o) b) = sub_id <$> (pre ++ post).
Proof.
  intros Hc Hobs.
  assert (Hc' := consistent_unsubscribe (sub_id o) b Hc).
  rewrite (getActiveSubscriptions_observers _ Hc').
  assert (Ho : observers (unsubscribe (sub_id o) b) = pre ++ post);
    [|rewrite Ho; auto].
  destruct Hc as (Hs & Hi & Hh & _).
  unfold unsubscribe. rewrite Hs, mapGet_entry.
  destruct (filter_unique sub_id (observers b) (sub_id o) Hi) as [o' Ho'].
  { apply list_elem_of_fmap_2. rewrite Hobs. apply elem_of_app. right. left. }
  rewrite Ho'. simpl.
  assert (o' = o) as ->.
  { assert (Hin : o' ∈ filter (fun x => sub_id x = sub_id o) (observers b))
      by (rewrite Ho'; left).
    apply list_elem_of_filter in Hin as [Hid Hin].
    eapply (fmap_inj_on sub_id); eauto.
    rewrite Hobs. apply elem_of_app. right. left. }
  rewrite Hobs in Hh |- *.
  apply filter_middle; [tauto|].
  apply (NoDup_middle handle), Hh.
Qed.

End Workflow.

(** ** One execution among caller-supplied listeners *)

(** A state in which the subscription [o] of an execution is active, and an
    event that passes its filter; the other subscriptions the event reaches
    hold caller-supplied listeners. *)
Section WorkflowDelivery.

Variables (w : World) (pre post : list Subscriber) (o : Subscriber).
Variables (api : nat) (callbacks : WorkflowCallbacks).
Variables (config : option WorkflowConfig) (m : Message).

Hypothesis Hobs : observers (bus w) = pre ++ o :: post.
Hypothesis Hl : listener o = executionListener api callbacks config.
Hypothesis Hp : passes (topicFilter o) (msg_topic m) = true.
Hypothesis Hothers :
  forall o', o' ∈ pre ++ post ->
    passes (topicFilter o') (msg_topic m) = true -> plain o'.



End WorkflowDelivery.

(** ** Terminal states, progress and cancellation *)

Lemma reachable_oneExecution : reachable_from None oneExecution.
Proof.
  unfold reachable_from.
  eapply rtc_l; [eapply (step_newWorkflowAPI 0 "W"); reflexivity|].
  eapply rtc_l;
    [eapply (step_execute 0 (JS.Obj [("x", JS.Num 1)]) someCallbacks None
               100 "aaaaaaaaa" 101 102); reflexivity|].
  apply rtc_refl.
Qed.











(** With [successStates: ['DONE']], a [DONE] state ends the execution with
    the success callback, and a [success] state is a progress notification
    that leaves the subscription active. *)
Example custom_done_is_success :
  let w' := publish customExecution (stateChange "DONE" (JS.Num 1)) in
  filter (fun e => isCalled e = true) (newEntries customExecution w')
  = [Called (fn "onSuccess") [JS.Num 1]] /\
  getActiveSubscriptions (bus w') = [].
Proof. split; reflexivity. Qed.

Example custom_success_is_progress :
  let m := stateChange "success" (JS.Num 1) in
  let w' := publish customExecution m in
  filter (fun e => isCalled e = true) (newEntries customExecution w')
  = [Called (fn "onProgress") [JS.Str "success"; msg_data m]] /\
  getActiveSubscriptions (bus w') = ["W.100.aaaaaaaaa"].
Proof. split; reflexivity. Qed.


Lemma getActiveSubscriptions_unsubscribe id b :
  consistent b ->
  (id ∉ getActiveSubscriptions (unsubscribe id b)) /\
  forall id', id' ≠ id ->
    (id' ∈ getActiveSubscriptions (unsubscribe id b) <->
     id' ∈ getActiveSubscriptions b).
Proof.
  intros Hc. unfold unsubscribe.
  destruct (mapGet id (subscriptions b)) as [h|] eqn:Hg.
  - unfold getActiveSubscriptions. simpl. split.
    + intros ([k h'] & Hk & Hin)%list_elem_of_fmap. simpl in Hk. subst k.
      apply list_elem_of_filter in Hin as [Hne _]. apply Hne. reflexivity.
    + intros id' Hne. rewrite !list_elem_of_fmap. split.
      * intros (kv & -> & Hin). exists kv.
        apply list_elem_of_filter in Hin as [_ Hin]. auto.
      * intros (kv & -> & Hin). exists kv. split; [reflexivity|].
        apply list_elem_of_filter. auto.
  - split; [apply mapGet_None; assumption|tauto].
Qed.




(** ** Wildcard patterns *)

Lemma length_append (a b : string) :
  String.length (a +:+ b) = String.length a + String.length b.
Proof. induction a as [|c a IH]; simpl; [reflexivity|]. rewrite IH. reflexivity. Qed.

Lemma segmentIs_length charOk seg found :
  segmentIs charOk seg found = true -> String.length seg = String.length found.
Proof.
  revert found. induction seg as [|p seg IH]; intros [|c found]; simpl;
    try discriminate.
  - reflexivity.
  - intros [_ H]%andb_true_iff. f_equal. apply IH, H.
Qed.

Lemma append_empty_r (a : string) : a +:+ EmptyString = a.
Proof.
  induction a as [|c a IH]; [reflexivity|].
  change (String c (a +:+ EmptyString) = String c a). f_equal. exact IH.
Qed.

Lemma length_zero (a : string) : String.length a = 0 -> a = EmptyString.
Proof. destruct a; [reflexivity|discriminate]. Qed.

Example matches_user_login : matches "USER.*" "USER.LOGIN" = Some true.
Proof. reflexivity. Qed.

Example matches_user_login_extra :
  matches "USER.*" "USER.LOGIN.EXTRA" = Some true.
Proof. reflexivity. Qed.

Example matches_not_z : matches "A.*" "Z.B" = Some false.
Proof. reflexivity. Qed.

Example matches_ignores_case : matches "user.*" "USER.LOGIN" = Some true.
Proof. reflexivity. Qed.

(** A [*] does not absorb a line terminator: [A*B] against [A], a line feed,
    [B]. *)
Example matches_stops_at_line_feed :
  matches "A*B" (String "A" (String "010" (String "B" EmptyString)))
  = Some false.
Proof. reflexivity. Qed.

(** C2, counterexample: the pattern [USER.*] is compiled to the regular
    expression [USER..*], whose first dot matches any character; it matches
    the topic [USERS], in which the literal segment [USER.] does not
    appear. *)
Lemma wildcard_dot_is_not_literal : ~ wildcard_as_specified.
Proof.
  intros Hspec.
  assert (H : spec_wildcard_matches "USER.*" "USERS")
    by (apply Hspec; reflexivity).
  destruct H as (skipped & rest & Heq & Hocc). simpl in Hocc.
  inversion Hocc as [|seg segs found gap rest' Hseg Hgap Hrest [Hs Hss] Hr];
    subst.
  pose proof (f_equal String.length Heq) as Hlen.
  rewrite !length_append in Hlen.
  pose proof (segmentIs_length _ _ _ Hseg) as Hfound.
  simpl in Hlen, Hfound.
  assert (skipped = EmptyString) by (apply length_zero; lia).
  assert (gap = EmptyString) by (apply length_zero; lia).
  assert (rest' = EmptyString) by (apply length_zero; lia).
  subst skipped gap rest'.
  change (EmptyString +:+ found +:+ EmptyString +:+ EmptyString)
    with (found +:+ EmptyString) in Heq.
  rewrite append_empty_r in Heq. subst found. discriminate Hseg.
Qed.

(** *** What the compiled pattern matches *)

Section Wildcard.

Lemma append_nil (a : string) : EmptyString +:+ a = a.
Proof. reflexivity. Qed.

Lemma append_cons c (a b : string) : String c a +:+ b = String c (a +:+ b).
Proof. reflexivity. Qed.

Lemma segments_nonempty pattern : segments pattern ≠ [].
Proof.
  destruct pattern as [|c rest]; simpl; [discriminate|].
  destruct (Ascii.eqb c "*"); [discriminate|].
  destruct (segments rest); discriminate.
Qed.

Lemma replaceStars_head s :
  match replaceStars s with
  | String q _ => Ascii.eqb q "*" = false
  | EmptyString => True
  end.
Proof.
  destruct s as [|c s]; simpl; [exact I|].
  destruct (Ascii.eqb c "*") eqn:Hc; [reflexivity|exact Hc].
Qed.

Lemma atomOf_atomFor c a : RegExp.atomOf c = Some a -> a = atomFor c.
Proof.
  unfold RegExp.atomOf, atomFor.
  destruct (Ascii.eqb c "."); [congruence|].
  destruct (_ || _); congruence.
Qed.

Lemma regexOf_cons_char c seg segs :
  regexOf (String c seg :: segs)
  = RegExp.One (atomFor c) :: regexOf (seg :: segs).
Proof. destruct segs; reflexivity. Qed.

Lemma parse_replaceStars pattern re :
  RegExp.parse (replaceStars pattern) = Some re ->
  re = regexOf (segments pattern).
Proof.
  revert re. induction pattern as [|c rest IH]; intros re Hre.
  - simpl in Hre. injection Hre as <-. reflexivity.
  - simpl in Hre |- *. destruct (Ascii.eqb c "*") eqn:Hc.
    + simpl in Hre.
      destruct (RegExp.parse (replaceStars rest)) as [re'|] eqn:Hrest;
        simpl in Hre; [|discriminate].
      injection Hre as <-. rewrite (IH re' eq_refl).
      pose proof (segments_nonempty rest) as Hne.
      simpl. destruct (segments rest); [contradiction|reflexivity].
    + cbn [RegExp.parse] in Hre.
      destruct (RegExp.atomOf c) as [a|] eqn:Ha; [|discriminate].
      apply atomOf_atomFor in Ha as ->.
      pose proof (replaceStars_head rest) as Hhead.
      pose proof (segments_nonempty rest) as Hne.
      destruct (replaceStars rest) as [|q rest'] eqn:Hq.
      * injection Hre as <-. rewrite (IH [] eq_refl).
        destruct (segments rest) as [|seg segs]; [contradiction|].
        rewrite regexOf_cons_char. reflexivity.
      * rewrite Hhead in Hre.
        destruct (RegExp.parse (String q rest')) as [re'|]; simpl in Hre;
          [|discriminate].
        injection Hre as <-. rewrite (IH re' eq_refl).
        destruct (segments rest) as [|seg segs]; [contradiction|].
        rewrite regexOf_cons_char. reflexivity.
Qed.

Lemma accepts_atomFor p c : RegExp.accepts (atomFor p) c = patternChar p c.
Proof. unfold atomFor, patternChar. destruct (Ascii.eqb p "."); reflexivity. Qed.

Lemma matchHere_segment seg re s :
  RegExp.matchHere (segmentPieces seg ++ re) s = true <->
  exists found rest,
    s = found +:+ rest /\ segmentIs patternChar seg found = true /\
    RegExp.matchHere re rest = true.
Proof.
  revert s. induction seg as [|p seg IH]; intros s; simpl.
  - split.
    + intros H. exists EmptyString, s. auto.
    + intros (found & rest & -> & Hseg & H).
      destruct found; [exact H|discriminate].
  - destruct s as [|c s].
    + split; [discriminate|].
      intros ([|c found] & rest & Heq & Hseg & _); discriminate.
    + rewrite andb_true_iff, accepts_atomFor, IH. split.
      * intros (Hc & found & rest & -> & Hseg & H).
        exists (String c found), rest. rewrite append_cons. simpl.
        rewrite Hc, Hseg. auto.
      * intros ([|c' found] & rest & Heq & Hseg & H); [discriminate|].
        rewrite append_cons in Heq. injection Heq as <- ->.
        simpl in Hseg. apply andb_true_iff in Hseg as [Hc Hseg].
        split; [exact Hc|]. eauto.
Qed.

Lemma matchHere_many a re s :
  RegExp.matchHere (RegExp.Many a :: re) s
  = RegExp.matchHere re s ||
    match s with
    | String c s' => RegExp.accepts a c && RegExp.matchHere (RegExp.Many a :: re) s'
    | EmptyString => false
    end.
Proof. destruct s; reflexivity. Qed.

Lemma matchHere_star re s :
  RegExp.matchHere (RegExp.Many RegExp.Dot :: re) s = true <->
  exists gap rest,
    s = gap +:+ rest /\ gapIs absorbed gap = true /\
    RegExp.matchHere re rest = true.
Proof.
  induction s as [|c s IH]; rewrite matchHere_many, orb_true_iff.
  - split.
    + intros [H|H]; [|discriminate]. exists EmptyString, EmptyString. auto.
    + intros ([|c gap] & rest & Heq & _ & H); [|discriminate].
      rewrite append_nil in Heq. subst rest. auto.
  - rewrite andb_true_iff, IH. split.
    + intros [H|(Hc & gap & rest & -> & Hgap & H)].
      * exists EmptyString, (String c s). auto.
      * exists (String c gap), rest. rewrite append_cons. simpl.
        unfold absorbed at 1. simpl in Hc. rewrite Hc, Hgap. auto.
    + intros ([|c' gap] & rest & Heq & Hgap & H).
      * rewrite append_nil in Heq. subst rest. auto.
      * rewrite append_cons in Heq. injection Heq as <- ->.
        simpl in Hgap. apply andb_true_iff in Hgap as [Hc Hgap].
        right. split; [exact Hc|]. eauto.
Qed.

Lemma matchHere_regexOf segs s :
  segs ≠ [] ->
  (RegExp.matchHere (regexOf segs) s = true <->
   occurFrom patternChar absorbed segs s).
Proof.
  revert s. induction segs as [|seg segs IH]; intros s Hne; [contradiction|].
  destruct segs as [|seg2 segs].
  - simpl. rewrite <- (app_nil_r (segmentPieces seg)), matchHere_segment.
    split.
    + intros (found & rest & -> & Hseg & _). constructor. exact Hseg.
    + intros H. inversion H as [seg' found rest Hseg|]; subst; [eauto|].
      match goal with H' : occurFrom _ _ [] _ |- _ => inversion H' end.
  - change (regexOf (seg :: seg2 :: segs))
      with (segmentPieces seg ++
            RegExp.Many RegExp.Dot :: regexOf (seg2 :: segs)).
    rewrite matchHere_segment. split.
    + intros (found & rest & -> & Hseg & H).
      apply matchHere_star in H as (gap & rest' & -> & Hgap & H).
      apply IH in H; [|discriminate].
      apply occur_more; assumption.
    + intros H.
      inversion H as [|seg' segs' found gap rest Hseg Hgap Hrest]; subst.
      exists found, (gap +:+ rest). split; [reflexivity|].
      split; [exact Hseg|].
      apply matchHere_star. exists gap, rest.
      split; [reflexivity|]. split; [exact Hgap|].
      apply IH; [discriminate|exact Hrest].
Qed.

Lemma test_iff re s :
  RegExp.test re s = true <->
  exists skipped rest, s = skipped +:+ rest /\ RegExp.matchHere re rest = true.
Proof.
  induction s as [|c s IH]; simpl; rewrite orb_true_iff.
  - split.
    + intros [H|H]; [|discriminate]. exists EmptyString, EmptyString. auto.
    + intros ([|c skipped] & rest & Heq & H); [|discriminate].
      rewrite append_nil in Heq. subst rest. auto.
  - rewrite IH. split.
    + intros [H|(skipped & rest & -> & H)].
      * exists EmptyString, (String c s). auto.
      * exists (String c skipped), rest. auto.
    + intros ([|c' skipped] & rest & Heq & H).
      * rewrite append_nil in Heq. subst rest. auto.
      * rewrite append_cons in Heq. injection Heq as <- ->. eauto.
Qed.

End Wildcard.

(** C2, amended: for a wildcard pattern that the regular-expression model
    covers (ordinary ASCII characters, [.] and [*]), the code matches exactly
    the topics in which the segments of the pattern appear in order, a [.]
    of a segment standing for any one character that is not a line
    terminator and every other character for itself up to case, each [*]
    absorbing zero or more characters that are not line terminators. *)
Theorem wildcard_matches_iff (pattern eventTopic : string)
    (re : RegExp.regex) :
  includesStar pattern = true ->
  RegExp.parse (replaceStars pattern) = Some re ->
  (matches pattern eventTopic = Some true <->
   code_wildcard_matches pattern eventTopic).
Proof.
  intros Hstar Hre. unfold matches, compileFilter. rewrite Hstar, Hre. simpl.
  rewrite (parse_replaceStars pattern re Hre).
  unfold code_wildcard_matches, occur.
  split.
  - intros [= H]. apply test_iff in H as (skipped & rest & -> & H).
    exists skipped, rest. split; [reflexivity|].
    apply matchHere_regexOf; [apply segments_nonempty|exact H].
  - intros (skipped & rest & -> & H). f_equal. apply test_iff.
    exists skipped, rest. split; [reflexivity|].
    apply matchHere_regexOf; [apply segments_nonempty|exact H].
Qed.

(** C2, witness: [USER.*] and [USER.LOGIN.EXTRA]. *)
Lemma wildcard_matches_iff_witness :
  code_wildcard_matches "USER.*" "USER.LOGIN.EXTRA".
Proof.
  refine (proj1 (wildcard_matches_iff "USER.*" "USER.LOGIN.EXTRA" _
                   eq_refl eq_refl) eq_refl).
Defined.

(** ** What [execute] sets up *)

Section Execute.





End Execute.




(** * Further properties of the code *)

(** ** Laws of [unsubscribe] and [subscribe] *)

Section Unsubscribe.

Lemma mapGet_absent id (m : list (string * nat)) :
  id ∉ m.*1 -> mapGet id m = None.
Proof.
  induction m as [|[k h] m IH]; intros Hid; simpl; [reflexivity|].
  rewrite fmap_cons, not_elem_of_cons in Hid. destruct Hid as [Hne Hid].
  destruct (String.eqb_spec k id) as [->|_]; [contradiction|].
  apply IH, Hid.
Qed.

Lemma mapGet_filter_eq id (m : list (string * nat)) :
  mapGet id (filter (fun kv => kv.1 ≠ id) m) = None.
Proof.
  apply mapGet_absent. intros Hin.
  apply list_elem_of_fmap in Hin as [[k h] [-> Hin]].
  apply list_elem_of_filter in Hin as [Hne _]. apply Hne. reflexivity.
Qed.

Lemma mapGet_filter_ne id id' (m : list (string * nat)) :
  id ≠ id' -> mapGet id (filter (fun kv => kv.1 ≠ id') m) = mapGet id m.
Proof.
  intros Hne. induction m as [|[k h] m IH]; [reflexivity|].
  rewrite filter_cons. simpl. case_decide as Hk; simpl.
  - rewrite IH. reflexivity.
  - assert (k = id') as -> by (destruct (decide (k = id')); tauto).
    destruct (String.eqb_spec id' id) as [->|_]; [contradiction|]. exact IH.
Qed.

Lemma filter_comm {A} (P Q : A -> Prop) `{!forall x, Decision (P x)}
    `{!forall x, Decision (Q x)} (l : list A) :
  filter P (filter Q l) = filter Q (filter P l).
Proof.
  induction l as [|x l IH]; [reflexivity|].
  rewrite !filter_cons.
  destruct (decide (P x)), (decide (Q x)); rewrite ?filter_cons;
    repeat case_decide; try contradiction; rewrite ?IH; reflexivity.
Qed.

End Unsubscribe.

(** [unsubscribe] of an id that is not active does nothing; unsubscribing
    twice is unsubscribing once; two [unsubscribe] calls commute. *)
Theorem unsubscribe_laws (b : EventBus) (id id' : string) :
  (id ∉ getActiveSubscriptions b -> unsubscribe id b = b) /\
  unsubscribe id (unsubscribe id b) = unsubscribe id b /\
  unsubscribe id (unsubscribe id' b) = unsubscribe id' (unsubscribe id b).
Proof.
  split; [|split].
  - intros Hid. unfold unsubscribe.
    rewrite mapGet_absent by exact Hid. reflexivity.
  - unfold unsubscribe at 2 3.
    destruct (mapGet id (subscriptions b)) as [h|] eqn:Hg.
    + unfold unsubscribe. cbn [subscriptions].
      rewrite mapGet_filter_eq. reflexivity.
    + unfold unsubscribe. rewrite Hg. reflexivity.
  - destruct (decide (id = id')) as [->|Hne]; [reflexivity|].
    unfold unsubscribe at 2 4.
    destruct (mapGet id' (subscriptions b)) as [h'|] eqn:Hg';
      destruct (mapGet id (subscriptions b)) as [h|] eqn:Hg;
      unfold unsubscribe; cbn [subscriptions observers debug eventHistory
                                 maxHistorySize nextHandle];
      rewrite ?mapGet_filter_ne by congruence; rewrite ?Hg, ?Hg';
      try reflexivity.
    f_equal; apply filter_comm.
Qed.

(** A subscription registered under a fresh id and then cancelled leaves the
    registry as it was: the same observers and the same active ids, in the
    same order; the history is untouched. *)
Theorem subscribe_unsubscribe_round_trip (b b' : EventBus) (id pattern : string)
    (l : Listener) (c d : JS.value) :
  consistent b ->
  id ∉ getActiveSubscriptions b ->
  subscribe id pattern l c d b = Some b' ->
  getActiveSubscriptions b' = getActiveSubscriptions b ++ [id] /\
  observers (unsubscribe id b') = observers b /\
  subscriptions (unsubscribe id b') = subscriptions b /\
  getActiveSubscriptions (unsubscribe id b') = getActiveSubscriptions b /\
  frame (unsubscribe id b') = frame b.
Proof.
  intros Hc Hid Hs.
  pose proof (consistent_subscribe _ _ _ _ _ _ _ Hs Hc) as Hc'.
  pose proof (frame_subscribe _ _ _ _ _ _ _ Hs) as Hf.
  unfold subscribe in Hs.
  destruct (has id b) eqn:Hhas; [apply has_spec in Hhas; contradiction|].
  destruct (compileFilter pattern) as [f|]; [|discriminate].
  simpl in Hs. injection Hs as <-.
  set (o := {| handle := nextHandle b; sub_id := id; topicFilter := f;
               listener := l; closure := c; customData := d |}) in *.
  set (b' := {| observers := observers b ++ [o];
                subscriptions := subscriptions b ++ [(id, nextHandle b)];
                debug := debug b; eventHistory := eventHistory b;
                maxHistorySize := maxHistorySize b;
                nextHandle := S (nextHandle b) |}) in *.
  destruct (unsubscribe_present b' (observers b) o [] Hc' eq_refl) as [Ho Ha].
  change (sub_id o) with id in Ho, Ha. rewrite app_nil_r in Ho, Ha.
  pose proof (consistent_unsubscribe id b' Hc') as Hc''.
  split; [|split; [|split; [|split]]].
  - unfold getActiveSubscriptions. simpl. rewrite fmap_app. reflexivity.
  - exact Ho.
  - destruct Hc'' as [-> _]. rewrite Ho. symmetry. apply Hc.
  - rewrite Ha. symmetry. apply getActiveSubscriptions_observers, Hc.
  - rewrite frame_unsubscribe. exact Hf.
Qed.

Lemma subscribe_unsubscribe_round_trip_witness :
  let b := bus twoListeners in
  exists b',
    subscribe "third" "A.*" (Plain (fn "L3")) JS.Null JS.Null b = Some b' /\
    observers (unsubscribe "third" b') = observers b.
Proof.
  intros b.
  assert (Hc : consistent b).
  { apply (consistent_reachable None twoListeners).
    eapply rtc_l; [|apply rtc_once].
    - apply (step_subscribe "first" "A.B" (thrower "L1" (JS.Str "boom"))
               JS.Undefined JS.Undefined). reflexivity.
    - apply (step_subscribe "second" "A.B" (fn "L2")
               JS.Undefined JS.Undefined). reflexivity. }
  eexists. split; [reflexivity|].
  refine (proj1 (proj2 (subscribe_unsubscribe_round_trip b _ "third" "A.*"
                          (Plain (fn "L3")) JS.Null JS.Null Hc _ eq_refl))).
  vm_compute. intros Hin.
  repeat (apply elem_of_cons in Hin as [Hin|Hin]; [discriminate|]).
  inversion Hin.
Defined.

(** ** Invariants of the history fields *)

Section FrameInvariant.

Variable Q : EventBus -> Prop.
Hypothesis Q_frame : forall b b', frame b' = frame b -> Q b -> Q b'.
Hypothesis Q_add : forall e b, Q b -> Q (addToHistory e b).
Hypothesis Q_clear : forall b, Q b -> Q (clearHistory b).

Lemma invariant_send topic data metadata now w :
  Q (bus w) -> Q (bus (send topic data metadata now w)).
Proof.
  intros Hq. unfold send.
  eapply Q_frame; [apply frame_subjectNext|]. simpl. apply Q_add, Hq.
Qed.

Lemma invariant_step w w' : step w w' -> Q (bus w) -> Q (bus w').
Proof.
  intros Hs Hq. destruct Hs; simpl.
  - eapply Q_frame; [eapply frame_subscribe; eassumption|exact Hq].
  - eapply Q_frame; [apply frame_unsubscribe|exact Hq].
  - eapply Q_frame; [apply frame_unsubscribeAll|exact Hq].
  - apply Q_clear, Hq.
  - apply invariant_send, Hq.
  - unfold newWorkflowAPI in H. destruct (apis w !! api); [discriminate|].
    injection H as <-. exact Hq.
  - execute_inv H a b' Hsub.
    do 2 apply invariant_send. simpl.
    eapply Q_frame; [eapply frame_subscribe; eassumption|exact Hq].
  - unfold cancel. eapply Q_frame; [apply frame_cleanup|exact Hq].
Qed.

Lemma invariant_rtc w w' : rtc step w w' -> Q (bus w) -> Q (bus w').
Proof. induction 1; eauto using invariant_step. Qed.

End FrameInvariant.

(** A negative [maxHistorySize] switches the history off: every [push] is
    followed by a [shift], so the buffer of a bus constructed with a
    negative bound is empty in every state the program reaches, and
    [getHistory] returns nothing. *)
Theorem negative_bound_keeps_no_history (N : Z) (dbg : option bool)
    (w : World) (topic' : option string) :
  (N < 0)%Z ->
  reachable_from
    (Some {| opt_debug := dbg; opt_maxHistorySize := Some N |}) w ->
  eventHistory (bus w) = [] /\ getHistory topic' (bus w) = [].
Proof.
  intros HN Hr.
  assert (Hq : (maxHistorySize (bus w) < 0)%Z /\ eventHistory (bus w) = []).
  { refine (invariant_rtc
              (fun b => (maxHistorySize b < 0)%Z /\ eventHistory b = [])
              _ _ _ _ _ Hr _).
    - unfold frame. intros b b' [= _ Hh Hm]. rewrite Hh, Hm. trivial.
    - intros e b [Hm Hh]. split; [exact Hm|].
      unfold addToHistory. simpl. rewrite Hh. simpl.
      destruct (Z.ltb_spec (maxHistorySize b) (Z.of_nat 1)); [reflexivity|lia].
    - intros b [Hm _]. split; [exact Hm|reflexivity].
    - simpl. destruct (Z.eqb_spec N 0); [lia|]. split; [exact HN|reflexivity]. }
  destruct Hq as [_ Hh]. split; [exact Hh|].
  unfold getHistory. rewrite Hh.
  destruct topic' as [t|]; [destruct (String.eqb t "")|]; reflexivity.
Qed.

Lemma negative_bound_keeps_no_history_witness :
  let w := send "T" JS.Null JS.Undefined 0
             (newWorld (Some {| opt_debug := None;
                                opt_maxHistorySize := Some (-1)%Z |})) in
  getHistory (Some "T") (bus w) = [].
Proof.
  intros w.
  refine (proj2 (negative_bound_keeps_no_history (-1) None w (Some "T") _ _)).
  - lia.
  - apply rtc_once. apply step_send.
Defined.

(** ** Publishing and the history queries *)




(** ** After [unsubscribeAll] *)






(** ** What a publish never does *)


(** ** Executions on objects with no execution under way *)

Section TrackedDelivery.

Variable event : Event.

Lemma recordAll_nil w : recordAll [] w = w.
Proof. destruct w. unfold recordAll. simpl. rewrite app_nil_r. reflexivity. Qed.

Lemma record_as_recordAll e w : record e w = recordAll [e] w.
Proof. reflexivity. Qed.

Lemma stateChangeListener_shape api ss es onS onE onP eventData w :
  exists calls,
    deliveries calls = [] /\
    let r := stateChangeListener api ss es onS onE onP eventData w in
    (r.1 = recordAll calls w \/
     (r.1 = cleanup api (recordAll calls w) /\ r.2 = None)).
Proof.
  unfold stateChangeListener, call.
  destruct (JS.includes ss _);
    [|destruct (JS.includes es _)];
    repeat match goal with
    | |- context [match ?x with Some _ => _ | None => _ end] =>
        destruct x as [?|] eqn:?
    end;
    simpl;
    first
      [ eexists [Called _ _]; split; [reflexivity|]; simpl;
        first [left; reflexivity | right; split; reflexivity]
      | exists []; split; [reflexivity|]; simpl; rewrite recordAll_nil;
        first [left; reflexivity | right; split; reflexivity] ].
Qed.

Lemma subscriberNext_shape w o :
  o ∈ observers (bus w) ->
  passes (topicFilter o) (topic event) = true ->
  exists calls w1,
    deliveries calls = [] /\
    log w1 = log w ++ deliveredEntry event o :: calls /\
    bus w1 = bus w /\ apis w1 = apis w /\
    (subscriberNext event w o = w1 \/
     exists api ss es onS onE onP,
       listener o = StateChange api ss es onS onE onP /\
       subscriberNext event w o = cleanup api w1).
Proof.
  intros Hin Hp.
  rewrite subscriberNext_open by (try apply list_elem_of_fmap_2; assumption).
  unfold invokeListener. fold (deliveredEntry event o).
  destruct (listener o) as [f|api ss es onS onE onP] eqn:Hl.
  - exists []. destruct (fn_throws f) as [e|].
    + eexists. split; [reflexivity|]. split; [|split; [|split]];
        [| | |left; reflexivity]; reflexivity.
    + eexists. split; [reflexivity|]. split; [|split; [|split]];
        [| | |left; reflexivity]; reflexivity.
  - destruct (stateChangeListener_shape api ss es onS onE onP (data event)
                (record (deliveredEntry event o) w)) as (calls & Hd & Hr).
    exists calls. simpl in Hr.
    destruct (stateChangeListener api ss es onS onE onP (data event)
                (record (deliveredEntry event o) w)) as [w' r].
    simpl in Hr. destruct Hr as [->|[-> ->]].
    + destruct r as [e|].
      * eexists. split; [exact Hd|]. split; [|split; [|split]];
          [| | |left; reflexivity]; try reflexivity.
        simpl. rewrite <- app_assoc. reflexivity.
      * eexists. split; [exact Hd|]. split; [|split; [|split]];
          [| | |left; reflexivity]; try reflexivity.
        simpl. rewrite <- app_assoc. reflexivity.
    + eexists. split; [exact Hd|]. split; [|split; [|split]];
        [| | |right; exists api, ss, es, onS, onE, onP; split; reflexivity];
        try reflexivity.
      simpl. rewrite <- app_assoc. reflexivity.
Qed.

Lemma tracked_same w w1 o : apis w1 = apis w -> tracked w o -> tracked w1 o.
Proof. unfold tracked. intros ->. trivial. Qed.

(** The [cleanup] that the listener of a tracked subscription [o] runs
    removes [o] and nothing else, and leaves every other tracked
    subscription tracked. *)
Lemma cleanup_of_tracked w o api ss es onS onE onP :
  consistent (bus w) ->
  o ∈ observers (bus w) ->
  listener o = StateChange api ss es onS onE onP ->
  tracked w o ->
  consistent (bus (cleanup api w)) /\
  log (cleanup api w) = log w /\
  (forall o', o' ∈ observers (bus w) -> o' ≠ o ->
     o' ∈ observers (bus (cleanup api w))) /\
  (forall o', o' ∈ observers (bus (cleanup api w)) ->
     o' ∈ observers (bus w) /\ (tracked w o' -> tracked (cleanup api w) o')).
Proof.
  intros Hc Hin Hl Ht.
  split; [apply consistent_cleanup, Hc|]. split; [apply log_cleanup|].
  unfold tracked in Ht. rewrite Hl in Ht. destruct Ht as (a & Ha & Hid & Hne).
  rewrite (cleanup_tracked api a (sub_id o)) by assumption.
  cbn [bus setApi setBus].
  apply list_elem_of_split in Hin as (pre & post & Hobs).
  destruct (unsubscribe_present (bus w) pre o post Hc Hobs) as [Hrest _].
  rewrite Hrest, Hobs. split.
  - intros o' Ho' Hne'. rewrite elem_of_app, elem_of_cons in Ho'.
    apply elem_of_app. destruct Ho' as [?|[?|?]]; [auto|contradiction|auto].
  - intros o' Ho'. split.
    + rewrite elem_of_app in Ho'. rewrite elem_of_app, elem_of_cons. tauto.
    + unfold tracked. cbn [apis setApi setBus].
      destruct (listener o') as [f|api' ? ? ? ? ?]; [trivial|].
      intros (a' & Ha' & Hid' & Hne').
      destruct (decide (api' = api)) as [->|Hapi].
      * exfalso. rewrite Ha in Ha'. injection Ha' as <-.
        destruct Hc as (_ & Hids & _). rewrite Hobs in Hids.
        apply (NoDup_middle sub_id pre post o Hids o' Ho'). congruence.
      * exists a'. rewrite lookup_insert_ne by congruence. auto.
Qed.

(** The delivery of [event] to the observers [rest] that remain to be
    visited: when the active subscriptions are tracked, each observer that
    matches is invoked, and those left are tracked. *)
Lemma foldl_tracked (rest : list Subscriber) w :
  consistent (bus w) ->
  NoDup rest ->
  (forall o, o ∈ rest -> o ∈ observers (bus w)) ->
  (forall o, o ∈ observers (bus w) -> tracked w o) ->
  let w' := foldl (subscriberNext event) w rest in
  consistent (bus w') /\
  (forall o, o ∈ observers (bus w') -> tracked w' o) /\
  exists ext,
    log w' = log w ++ ext /\
    deliveries ext = deliveredEntry event <$> matching (topic event) rest.
Proof.
  revert w. induction rest as [|o rest IH]; intros w Hc Hnd Hin Ht.
  - simpl. split; [exact Hc|]. split; [exact Ht|].
    exists []. rewrite app_nil_r. split; reflexivity.
  - apply NoDup_cons in Hnd as [Ho Hnd]. cbn [foldl].
    destruct (passes (topicFilter o) (topic event)) eqn:Hp.
    2:{ rewrite subscriberNext_skip by exact Hp.
        unfold matching. rewrite filter_cons_False by congruence.
        apply IH; try assumption.
        intros o' Ho'. apply Hin. right. exact Ho'. }
    assert (Hino : o ∈ observers (bus w)) by (apply Hin; left).
    assert (Hto : tracked w o) by (apply Ht, Hino).
    destruct (subscriberNext_shape w o Hino Hp)
      as (calls & w1 & Hd & Hlog & Hbus & Hapis & Hcase).
    assert (Hc1 : consistent (bus w1)) by (rewrite Hbus; exact Hc).
    assert (Hmatch : matching (topic event) (o :: rest)
                     = o :: matching (topic event) rest).
    { unfold matching. rewrite filter_cons_True by exact Hp. reflexivity. }
    assert (Hdel : deliveries (deliveredEntry event o :: calls)
                   = [deliveredEntry event o]).
    { unfold deliveries in *. rewrite filter_cons_True by reflexivity.
      rewrite Hd. reflexivity. }
    destruct Hcase as [Hnext|(api & ss & es & onS & onE & onP & Hl & Hnext)];
      rewrite Hnext.
    + destruct (IH w1) as (Hc' & Ht' & ext & Hext & Hdext); try assumption.
      * intros o' Ho'. rewrite Hbus. apply Hin. right. exact Ho'.
      * intros o' Ho'. apply (tracked_same w); [exact Hapis|].
        apply Ht. rewrite <- Hbus. exact Ho'.
      * split; [exact Hc'|]. split; [exact Ht'|].
        exists ((deliveredEntry event o :: calls) ++ ext).
        split; [rewrite Hext, Hlog, <- app_assoc; reflexivity|].
        unfold deliveries in *. rewrite filter_app. fold (deliveries ext).
        rewrite Hdel, Hmatch. unfold deliveries. rewrite Hdext. reflexivity.
    + assert (Hino1 : o ∈ observers (bus w1)) by (rewrite Hbus; exact Hino).
      assert (Hto1 : tracked w1 o) by (apply (tracked_same w); assumption).
      destruct (cleanup_of_tracked w1 o api ss es onS onE onP Hc1 Hino1 Hl Hto1)
        as (Hc2 & Hlog2 & Hkeep & Hback).
      destruct (IH (cleanup api w1)) as (Hc' & Ht' & ext & Hext & Hdext);
        try assumption.
      * intros o' Ho'. apply Hkeep.
        -- rewrite Hbus. apply Hin. right. exact Ho'.
        -- intros ->. contradiction.
      * intros o' Ho'. destruct (Hback o' Ho') as [Hinw1 Htr].
        apply Htr, (tracked_same w); [exact Hapis|].
        apply Ht. rewrite <- Hbus. exact Hinw1.
      * split; [exact Hc'|]. split; [exact Ht'|].
        exists ((deliveredEntry event o :: calls) ++ ext).
        split; [rewrite Hext, Hlog2, Hlog, <- app_assoc; reflexivity|].
        unfold deliveries in *. rewrite filter_app. fold (deliveries ext).
        rewrite Hdel, Hmatch. unfold deliveries. rewrite Hdext. reflexivity.
Qed.

End TrackedDelivery.

Lemma publish_tracked w m :
  consistent (bus w) ->
  (forall o, o ∈ observers (bus w) -> tracked w o) ->
  delivers_to_all_current w m /\
  consistent (bus (publish w m)) /\
  (forall o, o ∈ observers (bus (publish w m)) -> tracked (publish w m) o).
Proof.
  intros Hc Ht. unfold delivers_to_all_current, publish, send, subjectNext.
  fold (eventOf m). cbn [bus setBus addToHistory observers].
  set (w0 := setBus (addToHistory (eventOf m) (bus w)) w).
  destruct (foldl_tracked (eventOf m) (observers (bus w)) w0)
    as (Hc' & Ht' & ext & Hext & Hd).
  - apply consistent_addToHistory, Hc.
  - destruct Hc as (_ & _ & Hh & _). apply NoDup_fmap_1 in Hh. exact Hh.
  - auto.
  - exact Ht.
  - split; [|split; [exact Hc'|exact Ht']].
    unfold newEntries. rewrite Hext. change (log w0) with (log w).
    rewrite drop_app_length. exact Hd.
Qed.

Section Disciplined.

Lemma registrationId_nonempty (name now random : string) :
  name +:+ "." +:+ now +:+ "." +:+ random ≠ "".
Proof.
  intros H. apply (f_equal String.length) in H.
  rewrite length_append in H. simpl in H. lia.
Qed.

Lemma allTracked_bus w b :
  consistent b ->
  (forall o, o ∈ observers b -> o ∈ observers (bus w)) ->
  allTracked w -> allTracked (setBus b w).
Proof.
  intros Hc Hsub [_ Ht]. split; [exact Hc|].
  intros o Ho. apply (tracked_same w); [reflexivity|]. apply Ht, Hsub, Ho.
Qed.

Lemma allTracked_send topic data metadata now w :
  allTracked w -> allTracked (send topic data metadata now w).
Proof.
  intros [Hc Ht].
  destruct (publish_tracked w
              {| msg_topic := topic; msg_data := data;
                 msg_metadata := metadata; msg_now := now |})
    as (_ & Hc' & Ht'); [exact Hc|exact Ht|].
  split; [exact Hc'|exact Ht'].
Qed.

Lemma allTracked_subscribe id pattern l c d w b :
  subscribe id pattern l c d (bus w) = Some b ->
  (forall o, sub_id o = id -> listener o = l -> tracked w o) ->
  allTracked w -> allTracked (setBus b w).
Proof.
  intros Hs Hnew [Hc Ht].
  split; [eapply consistent_subscribe; eassumption|].
  unfold subscribe in Hs. destruct (has id (bus w)).
  - injection Hs as <-. exact Ht.
  - destruct (compileFilter pattern) as [f|]; [|discriminate].
    simpl in Hs. injection Hs as <-. cbn [bus setBus observers].
    intros o Ho. apply (tracked_same w); [reflexivity|].
    apply elem_of_app in Ho as [Ho|Ho]; [apply Ht, Ho|].
    apply list_elem_of_singleton in Ho as ->. apply Hnew; reflexivity.
Qed.

Lemma allTracked_setApi api a w :
  (forall o ss es onS onE onP,
     o ∈ observers (bus w) -> listener o <> StateChange api ss es onS onE onP) ->
  allTracked w -> allTracked (setApi api a w).
Proof.
  intros Hfree [Hc Ht]. split; [exact Hc|].
  intros o Ho. specialize (Ht o Ho). unfold tracked in *.
  destruct (listener o) as [f|api' ss es onS onE onP] eqn:Hl; [trivial|].
  destruct Ht as (a' & Ha' & Hid). exists a'. split; [|exact Hid].
  cbn [apis setApi]. rewrite lookup_insert_ne; [exact Ha'|].
  intros <-. exact (Hfree o ss es onS onE onP Ho Hl).
Qed.

(** No active listener belongs to an idle object, or to a reference that
    holds no object. *)
Lemma idle_free api w :
  allTracked w ->
  (apis w !! api = None \/ idle api w) ->
  forall o ss es onS onE onP,
    o ∈ observers (bus w) -> listener o <> StateChange api ss es onS onE onP.
Proof.
  intros [_ Ht] Hidle o ss es onS onE onP Ho Hl.
  specialize (Ht o Ho). unfold tracked in Ht. rewrite Hl in Ht.
  destruct Ht as (a & Ha & Hid & _).
  destruct Hidle as [Hnone|(a' & Ha' & Hid')]; congruence.
Qed.

Lemma allTracked_execute api params callbacks config now random t1 t2 w w' :
  idle api w ->
  execute api params callbacks config now random t1 t2 w = Some w' ->
  allTracked w -> allTracked w'.
Proof.
  intros Hidle He Hall.
  pose proof (idle_free api w Hall (or_intror Hidle)) as Hfree.
  execute_inv He a b' Hsub.
  do 2 apply allTracked_send.
  eapply allTracked_subscribe; [exact Hsub| |].
  - intros o Hid Hl. unfold tracked. rewrite Hl. unfold executionListener.
    eexists. cbn [apis setApi]. rewrite lookup_insert_eq.
    split; [reflexivity|]. simpl. rewrite Hid.
    split; [reflexivity|apply registrationId_nonempty].
  - apply allTracked_setApi; assumption.
Qed.

Lemma allTracked_newWorkflowAPI api name w w' :
  newWorkflowAPI api name w = Some w' ->
  allTracked w -> allTracked w' /\ idle api w'.
Proof.
  unfold newWorkflowAPI. intros Hn Hall.
  destruct (apis w !! api) eqn:Ha; [discriminate|]. injection Hn as <-.
  split.
  - apply allTracked_setApi; [|exact Hall].
    apply idle_free; [exact Hall|left; exact Ha].
  - eexists. cbn [apis setApi]. rewrite lookup_insert_eq.
    split; reflexivity.
Qed.

Lemma allTracked_cancel api w : allTracked w -> allTracked (cancel api w).
Proof.
  intros [Hc Ht]. unfold cancel, cleanup.
  destruct (apis w !! api) as [a|] eqn:Ha; [|split; assumption].
  destruct (subscriptionId a) as [id|] eqn:Hid; [|split; assumption].
  destruct (String.eqb_spec id "") as [Hempty|Hne]; [split; assumption|].
  split; [apply consistent_unsubscribe, Hc|].
  cbn [bus setApi setBus]. intros o Ho.
  assert (Hin : o ∈ observers (bus w)).
  { eapply elem_of_sublist; [exact Ho|apply observers_unsubscribe_sublist]. }
  specialize (Ht o Hin). unfold tracked in *.
  destruct (listener o) as [f|api' ss es onS onE onP]; [trivial|].
  destruct Ht as (a' & Ha' & Hid' & Hne'). cbn [apis setApi setBus].
  destruct (decide (api' = api)) as [->|Hapi].
  - exfalso. rewrite Ha in Ha'. injection Ha' as <-.
    rewrite Hid in Hid'. injection Hid' as ->.
    destruct (getActiveSubscriptions_unsubscribe (sub_id o) (bus w) Hc)
      as [Hgone _].
    apply Hgone.
    rewrite getActiveSubscriptions_observers
      by (apply consistent_unsubscribe, Hc).
    apply list_elem_of_fmap_2, Ho.
  - exists a'. rewrite lookup_insert_ne by congruence. auto.
Qed.

Lemma allTracked_disciplined w w' :
  disciplined w w' -> allTracked w -> allTracked w'.
Proof.
  intros Hs Hall. destruct Hs.
  - eapply allTracked_subscribe; [eassumption| |exact Hall].
    intros o _ Hl. unfold tracked. rewrite Hl. trivial.
  - apply allTracked_bus; [apply consistent_unsubscribe, Hall| |exact Hall].
    intros o Ho.
    eapply elem_of_sublist; [exact Ho|apply observers_unsubscribe_sublist].
  - apply allTracked_bus; [apply consistent_unsubscribeAll, Hall| |exact Hall].
    intros o Ho. rewrite observers_unsubscribeAll in Ho by apply Hall.
    inversion Ho.
  - apply allTracked_bus; [|auto|exact Hall].
    eapply consistent_frame; [..|apply Hall]; reflexivity.
  - apply allTracked_send, Hall.
  - eapply allTracked_newWorkflowAPI; eassumption.
  - eapply allTracked_execute; eassumption.
  - apply allTracked_cancel, Hall.
  - unfold WorkflowBuilder.execute in H.
    destruct (newWorkflowAPI api (WorkflowBuilder.workflowName wb) w) as [w1|] eqn:Hn;
      [|discriminate].
    simpl in H.
    destruct (allTracked_newWorkflowAPI _ _ _ _ Hn Hall) as [Hall1 Hidle].
    eapply allTracked_execute; eassumption.
Qed.

Lemma allTracked_rtc w w' :
  rtc disciplined w w' -> allTracked w -> allTracked w'.
Proof. induction 1; eauto using allTracked_disciplined. Qed.

Lemma allTracked_newWorld options : allTracked (newWorld options).
Proof.
  split; [apply consistent_newEventBus|]. intros o Ho. inversion Ho.
Qed.

End Disciplined.



(** ** What each listener does with an event *)

Section Settled.

Variable event : Event.

Lemma filter_ext_in {A} (P Q : A -> Prop) `{!forall x, Decision (P x)}
    `{!forall x, Decision (Q x)} (l : list A) :
  (forall x, x ∈ l -> (P x <-> Q x)) -> filter P l = filter Q l.
Proof.
  induction l as [|x l IH]; intros Hext; [reflexivity|].
  rewrite !filter_cons.
  assert (Hx : P x <-> Q x) by (apply Hext; left).
  rewrite IH by (intros y Hy; apply Hext; right; exact Hy).
  destruct (decide (P x)), (decide (Q x)); tauto.
Qed.

Lemma filter_all {A} (P : A -> Prop) `{!forall x, Decision (P x)}
    (l : list A) :
  (forall x, x ∈ l -> P x) -> filter P l = l.
Proof.
  induction l as [|x l IH]; intros Hl; [reflexivity|].
  rewrite filter_cons_True by (apply Hl; left).
  f_equal. apply IH. intros y Hy. apply Hl. right. exact Hy.
Qed.

Lemma stateChangeListener_exact api ss es onS onE onP eventData w :
  let l := StateChange api ss es onS onE onP in
  let w1 :=
    recordAll (calls (reaction l eventData).1 (reaction l eventData).2) w in
  stateChangeListener api ss es onS onE onP eventData w
  = if cleansUp l eventData then (cleanup api w1, None)
    else (w1, raised l eventData).
Proof.
  unfold stateChangeListener, cleansUp, raised, reaction, notification,
    classify, call.
  change (successStatesOf (configOf (StateChange api ss es onS onE onP)))
    with ss.
  change (errorStatesOf (configOf (StateChange api ss es onS onE onP)))
    with es.
  cbn [callbacksOf onSuccess onError onProgress].
  destruct (JS.includes ss _) eqn:Hs;
    [|destruct (JS.includes es _) eqn:He]; cbn [fst snd].
  - destruct onS as [f|].
    + rewrite (includes_object _ _ Hs). unfold payload. cbn [mbind option_bind].
      destruct (fn_throws f); reflexivity.
    + cbn [calls]. rewrite recordAll_nil. reflexivity.
  - destruct onE as [f|].
    + rewrite (includes_object _ _ He). unfold payload. cbn [mbind option_bind].
      destruct (fn_throws f); reflexivity.
    + cbn [calls]. rewrite recordAll_nil. reflexivity.
  - destruct onP as [f|].
    + reflexivity.
    + cbn [calls]. rewrite recordAll_nil. reflexivity.
Qed.

(** The world after the listener of [o] has run. *)
Lemma subscriberNext_exact w o :
  o ∈ observers (bus w) ->
  passes (topicFilter o) (topic event) = true ->
  let w1 := recordAll (handled event o) w in
  subscriberNext event w o
  = match listener o with
    | StateChange api _ _ _ _ _ =>
        if cleansUp (listener o) (data event) then cleanup api w1
        else match raised (listener o) (data event) with
             | Some e => reportUnhandledError e w1
             | None => w1
             end
    | Plain _ =>
        match raised (listener o) (data event) with
        | Some e => reportUnhandledError e w1
        | None => w1
        end
    end.
Proof.
  intros Hin Hp.
  rewrite subscriberNext_open by (try apply list_elem_of_fmap_2; assumption).
  unfold invokeListener, handled. fold (deliveredEntry event o).
  destruct (listener o) as [f|api ss es onS onE onP] eqn:Hl.
  - simpl. destruct (fn_throws f); reflexivity.
  - rewrite stateChangeListener_exact. rewrite record_as_recordAll.
    set (l := StateChange api ss es onS onE onP).
    assert (Hrec : forall entries,
              recordAll entries (recordAll [deliveredEntry event o] w)
              = recordAll (deliveredEntry event o :: entries) w).
    { intros entries. unfold recordAll. simpl. rewrite <- app_assoc.
      reflexivity. }
    rewrite Hrec.
    destruct (cleansUp l (data event)); [reflexivity|].
    destruct (raised l (data event)); reflexivity.
Qed.

Lemma tracking_Some w api id :
  tracking w api = Some id ->
  exists a, apis w !! api = Some a /\ subscriptionId a = Some id /\ id ≠ "".
Proof.
  unfold tracking. destruct (apis w !! api) as [a|]; [|discriminate].
  simpl. destruct (subscriptionId a) as [id'|] eqn:Hid; [|discriminate]. simpl.
  destruct (String.eqb_spec id' "") as [|Hne]; [discriminate|].
  intros [= <-]. exists a. split; [reflexivity|]. split; [exact Hid|exact Hne].
Qed.

Lemma cleanup_untracked w api : tracking w api = None -> cleanup api w = w.
Proof.
  unfold tracking, cleanup. destruct (apis w !! api) as [a|]; [|reflexivity].
  simpl. destruct (subscriptionId a) as [id|]; [|reflexivity]. simpl.
  destruct (String.eqb id ""); [reflexivity|discriminate].
Qed.

Lemma cleansUp_raised l eventData :
  cleansUp l eventData = true -> raised l eventData = None.
Proof.
  unfold cleansUp. destruct l; [discriminate|].
  destruct (classify _ _), (raised _ _); try discriminate; reflexivity.
Qed.

(** One step of the delivery, at a matching subscription that is settled. *)
Lemma subscriberNext_settled w o :
  consistent (bus w) ->
  o ∈ observers (bus w) ->
  passes (topicFilter o) (topic event) = true ->
  settled w o ->
  let w2 := subscriberNext event w o in
  log w2 = log w ++ handled event o /\
  unhandled w2
  = unhandled w ++ option_list (raised (listener o) (data event)) /\
  if finishedBy w event o
  then exists api ss es onS onE onP a,
         listener o = StateChange api ss es onS onE onP /\
         apis w !! api = Some a /\
         bus w2 = unsubscribe (sub_id o) (bus w) /\
         apis w2
         = <[api := {| workflowName := workflowName a;
                       subscriptionId := None |}]> (apis w)
  else bus w2 = bus w /\ apis w2 = apis w.
Proof.
  intros Hc Hin Hp Hs. cbv zeta.
  rewrite (subscriberNext_exact w o Hin Hp). cbv zeta.
  unfold finishedBy. rewrite Hp. cbn [andb]. unfold settled in Hs.
  destruct (listener o) as [f|api ss es onS onE onP] eqn:Hl.
  - rewrite andb_false_r.
    destruct (raised (Plain f) (data event)); simpl;
      rewrite ?app_nil_r; auto.
  - set (l := StateChange api ss es onS onE onP) in *.
    destruct (cleansUp l (data event)) eqn:Hcl; cbn [andb].
    2:{ destruct (raised l (data event)); simpl; rewrite ?app_nil_r; auto. }
    rewrite (cleansUp_raised _ _ Hcl). cbn [option_list]. rewrite app_nil_r.
    destruct (tracking w api) as [id|] eqn:Htr.
    + rewrite (Hs id eq_refl). rewrite bool_decide_eq_true_2 by reflexivity.
      rewrite (Hs id eq_refl) in Htr.
      destruct (tracking_Some _ _ _ Htr) as (a & Ha & Hid & Hne).
      rewrite (cleanup_tracked api a (sub_id o)) by assumption.
      split; [reflexivity|]. split; [reflexivity|].
      exists api, ss, es, onS, onE, onP, a. auto.
    + rewrite bool_decide_eq_false_2 by discriminate.
      rewrite cleanup_untracked by exact Htr. auto.
Qed.

Lemma finishedBy_same w w1 o :
  apis w1 = apis w -> finishedBy w1 event o = finishedBy w event o.
Proof. unfold finishedBy, tracking. intros ->. reflexivity. Qed.

Lemma settled_same w w1 o : apis w1 = apis w -> settled w o -> settled w1 o.
Proof. unfold settled, tracking. intros ->. trivial. Qed.

(** The delivery of [event] to the observers [rest] that remain to be
    visited, when those that match are settled. *)
Lemma foldl_settled (rest : list Subscriber) w :
  consistent (bus w) ->
  NoDup rest ->
  (forall o, o ∈ rest -> o ∈ observers (bus w)) ->
  (forall o, o ∈ rest -> passes (topicFilter o) (topic event) = true ->
     settled w o) ->
  let w' := foldl (subscriberNext event) w rest in
  consistent (bus w') /\
  log w' = log w ++ concat (handled event <$> matching (topic event) rest) /\
  unhandled w'
  = unhandled w ++
    omap (fun o => raised (listener o) (data event))
      (matching (topic event) rest) /\
  observers (bus w')
  = filter (fun o => ~ (finishedBy w event o = true /\
                        handle o ∈ handle <$> rest))
      (observers (bus w)).
Proof.
  revert w. induction rest as [|o rest IH]; intros w Hc Hnd Hin Hs.
  - simpl. split; [exact Hc|]. rewrite !app_nil_r.
    split; [reflexivity|]. split; [reflexivity|].
    symmetry. apply filter_all. intros o _ [_ Hh]. inversion Hh.
  - apply NoDup_cons in Hnd as [Ho Hnd]. cbn [foldl].
    assert (Hino : o ∈ observers (bus w)) by (apply Hin; left).
    assert (Hhandles : forall o1 o2,
              o1 ∈ observers (bus w) -> o2 ∈ observers (bus w) ->
              handle o1 = handle o2 -> o1 = o2).
    { intros o1 o2 H1 H2. apply (fmap_inj_on handle (observers (bus w)));
        [apply Hc|exact H1|exact H2]. }
    assert (Hmem : forall o', o' ∈ observers (bus w) ->
              handle o' ∈ handle <$> rest -> o' ∈ rest).
    { intros o' Ho' Hh. apply list_elem_of_fmap in Hh as (r & Heq & Hr).
      rewrite (Hhandles o' r); auto. apply Hin. right. exact Hr. }
    destruct (passes (topicFilter o) (topic event)) eqn:Hp.
    2:{ rewrite subscriberNext_skip by exact Hp.
        unfold matching. rewrite filter_cons_False by congruence.
        destruct (IH w) as (Hc' & Hlog & Hun & Hobs); try assumption.
        - intros o' Ho'. apply Hin. right. exact Ho'.
        - intros o' Ho'. apply Hs. right. exact Ho'.
        - split; [exact Hc'|]. split; [exact Hlog|]. split; [exact Hun|].
          rewrite Hobs. apply filter_ext_in. intros o' Ho'.
          rewrite fmap_cons, elem_of_cons.
          split; intros Hq [Hf Hh]; apply Hq; split; auto.
          destruct Hh as [Hh|Hh]; [|exact Hh].
          exfalso. rewrite (Hhandles o' o Ho' Hino Hh) in Hf.
          unfold finishedBy in Hf. rewrite Hp in Hf. discriminate. }
    assert (Hso : settled w o) by (apply Hs; [left|exact Hp]).
    destruct (subscriberNext_settled w o Hc Hino Hp Hso)
      as (Hlog2 & Hun2 & Hcase).
    set (w2 := subscriberNext event w o) in *.
    assert (Hmatch : matching (topic event) (o :: rest)
                     = o :: matching (topic event) rest).
    { unfold matching. rewrite filter_cons_True by exact Hp. reflexivity. }
    rewrite Hmatch, fmap_cons, concat_cons. cbn [omap list_omap].
    destruct (finishedBy w event o) eqn:Hfin.
    + destruct Hcase as (api & ss & es & onS & onE & onP & a & Hl & Ha & Hbus
                         & Hapis).
      pose proof Hino as Hsplit.
      apply list_elem_of_split in Hsplit as (pre & post & Hobs).
      destruct (unsubscribe_present (bus w) pre o post Hc Hobs) as [Hrest _].
      assert (Hids : forall x, x ∈ pre ++ post -> sub_id x ≠ sub_id o).
      { apply NoDup_middle. rewrite <- Hobs. apply Hc. }
      assert (Hhs : forall x, x ∈ pre ++ post -> handle x ≠ handle o).
      { apply NoDup_middle. rewrite <- Hobs. apply Hc. }
      assert (Hsame : forall o', o' ∈ pre ++ post ->
                passes (topicFilter o') (topic event) = true ->
                settled w o' ->
                finishedBy w2 event o' = finishedBy w event o' /\
                settled w2 o').
      { intros o' Ho' Hp' Hs'.
        unfold finishedBy, settled, tracking in Hs', Hfin |- *.
        rewrite Hapis.
        destruct (listener o') as [f|api' ? ? ? ? ?]; [auto|].
        destruct (decide (api' = api)) as [->|Hapi].
        - exfalso. rewrite Hl, Hp in Hfin. cbn [andb] in Hfin.
          apply andb_true_iff in Hfin as [_ Hfin].
          apply bool_decide_eq_true_1 in Hfin.
          apply (Hids o' Ho'). symmetry. apply Hs'. exact Hfin.
        - rewrite lookup_insert_ne by congruence. auto. }
      destruct (IH w2) as (Hc' & Hlog & Hun & Hobs').
      * rewrite Hbus. apply consistent_unsubscribe, Hc.
      * exact Hnd.
      * intros o' Ho'. rewrite Hbus, Hrest.
        assert (Hin' : o' ∈ pre ++ o :: post)
          by (rewrite <- Hobs; apply Hin; right; exact Ho').
        rewrite elem_of_app, elem_of_cons in Hin'. apply elem_of_app.
        destruct Hin' as [?|[->|?]]; [auto|contradiction|auto].
      * intros o' Ho' Hp'. apply Hsame; [|exact Hp'|].
        -- assert (Hin' : o' ∈ pre ++ o :: post)
             by (rewrite <- Hobs; apply Hin; right; exact Ho').
           rewrite elem_of_app, elem_of_cons in Hin'. apply elem_of_app.
           destruct Hin' as [?|[->|?]]; [auto|contradiction|auto].
        -- apply Hs; [right; exact Ho'|exact Hp'].
      * split; [exact Hc'|].
        split; [rewrite Hlog, Hlog2, <- app_assoc; reflexivity|].
        split.
        { rewrite Hun, Hun2, <- app_assoc.
          rewrite (cleansUp_raised (listener o) (data event)); [reflexivity|].
          unfold finishedBy in Hfin. rewrite Hp in Hfin. cbn [andb] in Hfin.
          apply andb_true_iff in Hfin as [Hfin _]. exact Hfin. }
        rewrite Hobs', Hbus, Hrest, Hobs.
        rewrite (filter_app _ pre (o :: post)), filter_cons_False.
        2:{ intros Hq. apply Hq. split; [exact Hfin|].
            rewrite fmap_cons. left. }
        rewrite <- filter_app. apply filter_ext_in. intros o' Ho'.
        rewrite fmap_cons, elem_of_cons.
        assert (Hino' : o' ∈ observers (bus w)).
        { rewrite Hobs. rewrite elem_of_app in Ho'.
          rewrite elem_of_app, elem_of_cons. tauto. }
        split; intros Hq [Hf Hh]; apply Hq.
        -- destruct Hh as [Hh|Hh]; [destruct (Hhs o' Ho' Hh)|].
           split; [|exact Hh].
           destruct (passes (topicFilter o') (topic event)) eqn:Hp';
             [|unfold finishedBy in Hf; rewrite Hp' in Hf; discriminate].
           rewrite (proj1 (Hsame o' Ho' Hp'
                             (Hs o' (list_elem_of_further _ _ _
                                       (Hmem o' Hino' Hh)) Hp'))).
           exact Hf.
        -- split; [|right; exact Hh].
           destruct (passes (topicFilter o') (topic event)) eqn:Hp';
             [|unfold finishedBy in Hf; rewrite Hp' in Hf; discriminate].
           rewrite <- (proj1 (Hsame o' Ho' Hp'
                                (Hs o' (list_elem_of_further _ _ _
                                          (Hmem o' Hino' Hh)) Hp'))).
           exact Hf.
    + destruct Hcase as [Hbus Hapis].
      destruct (IH w2) as (Hc' & Hlog & Hun & Hobs').
      * rewrite Hbus. exact Hc.
      * exact Hnd.
      * intros o' Ho'. rewrite Hbus. apply Hin. right. exact Ho'.
      * intros o' Ho' Hp'. apply (settled_same w); [exact Hapis|].
        apply Hs; [right; exact Ho'|exact Hp'].
      * split; [exact Hc'|].
        split; [rewrite Hlog, Hlog2, <- app_assoc; reflexivity|].
        split.
        { rewrite Hun, Hun2, <- app_assoc.
          destruct (raised (listener o) (data event)); reflexivity. }
        rewrite Hobs', Hbus. apply filter_ext_in. intros o' Ho'.
        rewrite (finishedBy_same w w2 o' Hapis).
        rewrite fmap_cons, elem_of_cons.
        split; intros Hq [Hf Hh]; apply Hq; split; auto.
        destruct Hh as [Hh|Hh]; [|exact Hh].
        exfalso. rewrite (Hhandles o' o Ho' Hino Hh) in Hf. congruence.
Qed.

End Settled.

Lemma publish_handled (w : World) (m : Message) :
  consistent (bus w) ->
  (forall o, o ∈ matching (msg_topic m) (observers (bus w)) -> settled w o) ->
  let event := eventOf m in
  let w' := publish w m in
  let current := matching (msg_topic m) (observers (bus w)) in
  consistent (bus w') /\
  log w' = log w ++ concat (handled event <$> current) /\
  unhandled w'
  = unhandled w ++ omap (fun o => raised (listener o) (msg_data m)) current /\
  observers (bus w')
  = filter (fun o => finishedBy w event o = false) (observers (bus w)).
Proof.
  intros Hc Hs event w' current.
  unfold w', publish, send, subjectNext. fold (eventOf m). fold event.
  cbn [bus setBus addToHistory observers].
  set (w0 := setBus (addToHistory event (bus w)) w).
  destruct (foldl_settled event (observers (bus w)) w0)
    as (Hc' & Hlog & Hun & Hobs).
  - apply consistent_addToHistory, Hc.
  - destruct Hc as (_ & _ & Hh & _). apply NoDup_fmap_1 in Hh. exact Hh.
  - auto.
  - intros o Ho Hp. apply (settled_same w); [reflexivity|].
    apply Hs. apply list_elem_of_filter. auto.
  - assert (Hobs' :
      observers (bus (foldl (subscriberNext event) w0 (observers (bus w))))
      = filter (fun o => finishedBy w event o = false) (observers (bus w))).
    { rewrite Hobs. apply filter_ext_in. intros o Ho.
      rewrite (finishedBy_same event w w0 o eq_refl).
      destruct (finishedBy w event o); split; try congruence.
      - intros Hq. exfalso. apply Hq. split; [reflexivity|].
        apply list_elem_of_fmap_2, Ho.
      - intros _ [Hf _]. discriminate. }
    split; [exact Hc'|]. split; [exact Hlog|].
    split; [exact Hun|exact Hobs'].
Qed.


Lemma tracking_publish w m api :
  tracking (publish w m) api = None \/
  tracking (publish w m) api = tracking w api.
Proof.
  unfold publish, send.
  apply (delivery_subjectNext
           (fun w' => forall api, tracking w' api = None \/
                                  tracking w' api = tracking w api)).
  - intros api0 w1 H api1. unfold cleanup.
    destruct (apis w1 !! api0) as [a|] eqn:Ha; [|apply H].
    destruct (subscriptionId a) as [id|]; [|apply H].
    destruct (String.eqb id ""); [apply H|].
    unfold tracking at 1 2. cbn [apis setApi setBus].
    destruct (decide (api1 = api0)) as [->|Hne].
    + rewrite lookup_insert_eq. left. reflexivity.
    + rewrite lookup_insert_ne by congruence. apply H.
  - intros e w1 H. exact H.
  - intros e w1 H. exact H.
  - intros api1. right. reflexivity.
Qed.

Lemma observers_publish_sublist w m :
  observers (bus (publish w m)) `sublist_of` observers (bus w).
Proof.
  unfold publish, send, subjectNext.
  etransitivity; [apply observers_foldl_sublist|]. reflexivity.
Qed.

Lemma settled_publish w m :
  (forall o, o ∈ observers (bus w) -> settled w o) ->
  forall o, o ∈ observers (bus (publish w m)) -> settled (publish w m) o.
Proof.
  intros Hs o Ho.
  assert (Hin : o ∈ observers (bus w)).
  { eapply elem_of_sublist; [exact Ho|apply observers_publish_sublist]. }
  specialize (Hs o Hin). unfold settled in *.
  destruct (listener o) as [f|api ? ? ? ? ?]; [trivial|].
  intros id Hid. apply Hs.
  destruct (tracking_publish w m api) as [Hn|He]; congruence.
Qed.

Lemma elem_of_concat {A} (x : A) (l : list A) (ls : list (list A)) :
  x ∈ l -> l ∈ ls -> x ∈ concat ls.
Proof.
  intros Hx. induction 1 as [l ls|l l' ls _ IH]; simpl; apply elem_of_app; auto.
Qed.


Lemma tracked_settled w o : tracked w o -> settled w o.
Proof.
  unfold tracked, settled, tracking.
  destruct (listener o) as [f|api ? ? ? ? ?]; [trivial|].
  intros (a & Ha & Hid & Hne) id. rewrite Ha. simpl. rewrite Hid. simpl.
  destruct (String.eqb_spec (sub_id o) ""); congruence.
Qed.

Lemma tracked_finishedBy w event o :
  tracked w o ->
  passes (topicFilter o) (topic event) = true ->
  cleansUp (listener o) (data event) = true ->
  finishedBy w event o = true.
Proof.
  unfold tracked, finishedBy, tracking. intros Ht -> Hcl. rewrite Hcl.
  destruct (listener o) as [f|api ? ? ? ? ?]; [discriminate|].
  destruct Ht as (a & Ha & Hid & Hne). rewrite Ha. simpl. rewrite Hid. simpl.
  destruct (String.eqb_spec (sub_id o) ""); [contradiction|].
  apply bool_decide_eq_true_2. reflexivity.
Qed.

(** A program that starts executions only on objects with no execution
    under way leaks no subscription: an execution whose listener reaches
    [cleanup] (a terminal state, and a callback that returns) is
    unsubscribed by that delivery, whatever other executions are active. *)
Theorem disciplined_runs_clean_up (options : option Options) (w : World)
    (m : Message) (o : Subscriber) :
  rtc disciplined (newWorld options) w ->
  o ∈ observers (bus w) ->
  passes (topicFilter o) (msg_topic m) = true ->
  cleansUp (listener o) (msg_data m) = true ->
  let w' := publish w m in
  (o ∉ observers (bus w')) /\
  (sub_id o ∉ getActiveSubscriptions (bus w')).
Proof.
  intros Hr Ho Hp Hcl.
  destruct (allTracked_rtc _ _ Hr (allTracked_newWorld options)) as [Hc Ht].
  destruct (publish_handled w m Hc) as (Hc' & _ & _ & Hobs).
  { intros o' Ho'. apply tracked_settled, Ht.
    apply list_elem_of_filter in Ho' as [_ Ho']. exact Ho'. }
  pose proof (tracked_finishedBy w (eventOf m) o (Ht o Ho) Hp Hcl) as Hfin.
  cbv zeta. rewrite getActiveSubscriptions_observers by exact Hc'.
  rewrite Hobs. split.
  - intros Hin. apply list_elem_of_filter in Hin as [Hf _]. congruence.
  - intros Hin. apply list_elem_of_fmap in Hin as (o' & Hid & Hin).
    apply list_elem_of_filter in Hin as [Hf Hin].
    assert (o = o') as <-; [|congruence].
    apply (fmap_inj_on sub_id (observers (bus w))); [apply Hc| | |]; assumption.
Qed.

Lemma disciplined_runs_clean_up_witness :
  let m := stateChange "success" (JS.Obj [("y", JS.Num 2)]) in
  sub_id builderSubscriber
  ∉ getActiveSubscriptions (bus (publish twoBuilderExecutions m)).
Proof.
  intros m.
  refine (proj2 (disciplined_runs_clean_up None twoBuilderExecutions m
                   builderSubscriber _ _ _ _)).
  - eapply rtc_l; [|apply rtc_once].
    + apply (disciplined_builder builderW 0 100 "aaaaaaaaa" 101 102).
      reflexivity.
    + apply (disciplined_builder builderW 1 200 "bbbbbbbbb" 201 202).
      reflexivity.
  - vm_compute. left.
  - reflexivity.
  - reflexivity.
Defined.

Lemma consistent_afterReuse : consistent (bus afterReuse).
Proof.
  apply (consistent_reachable None).
  eapply rtc_r; [apply reachable_twoExecutions|]. apply step_send.
Qed.


(** A workflow listener whose object tracks nothing (the object was reused
    for a later execution that has ended, or the execution was cancelled
    after a reuse) is never cleaned up: whatever is published, its
    subscription stays active, [cancel()] on its object does nothing, and
    every further event on its topic is handled by it again, calling the
    callback that the state selects. *)
Theorem orphan_is_never_cleaned_up (w : World) (o : Subscriber) (api : nat)
    (ss es : list string) (onS onE onP : option Fn) (ms : list Message)
    (m : Message) :
  consistent (bus w) ->
  (forall o', o' ∈ observers (bus w) -> settled w o') ->
  o ∈ observers (bus w) ->
  listener o = StateChange api ss es onS onE onP ->
  tracking w api = None ->
  let w' := publishAll ms w in
  o ∈ observers (bus w') /\
  sub_id o ∈ getActiveSubscriptions (bus w') /\
  cancel api w' = w' /\
  (passes (topicFilter o) (msg_topic m) = true ->
   forall e, e ∈ handled (eventOf m) o -> e ∈ newEntries w' (publish w' m)).
Proof.
  intros Hc Hs Ho Hl Htr. cbv zeta.
  assert (Hinv : consistent (bus (publishAll ms w)) /\
                 (forall o', o' ∈ observers (bus (publishAll ms w)) ->
                    settled (publishAll ms w) o') /\
                 o ∈ observers (bus (publishAll ms w)) /\
                 tracking (publishAll ms w) api = None).
  { revert w Hc Hs Ho Htr. induction ms as [|m0 ms IH]; intros w Hc Hs Ho Htr.
    - auto.
    - change (publishAll (m0 :: ms) w) with (publishAll ms (publish w m0)).
      apply IH.
      + apply consistent_send, Hc.
      + apply settled_publish, Hs.
      + destruct (publish_handled w m0 Hc) as (_ & _ & _ & Hobs).
        { intros o' Ho'. apply Hs.
          apply list_elem_of_filter in Ho' as [_ Ho']. exact Ho'. }
        rewrite Hobs. apply list_elem_of_filter. split; [|exact Ho].
        unfold finishedBy. rewrite Hl, Htr.
        rewrite bool_decide_eq_false_2 by discriminate.
        apply andb_false_r.
      + destruct (tracking_publish w m0 api) as [Hn|He]; congruence. }
  destruct Hinv as (Hc' & Hs' & Ho' & Htr').
  split; [exact Ho'|]. split; [|split].
  - rewrite getActiveSubscriptions_observers by exact Hc'.
    apply list_elem_of_fmap_2, Ho'.
  - apply cleanup_untracked, Htr'.
  - intros Hp e He.
    destruct (publish_handled (publishAll ms w) m Hc') as (_ & Hlog & _).
    { intros o' Hin. apply Hs'.
      apply list_elem_of_filter in Hin as [_ Hin]. exact Hin. }
    unfold newEntries. rewrite Hlog, drop_app_length. apply (elem_of_concat e (handled (eventOf m) o)); [exact He|].
    apply list_elem_of_fmap_2, list_elem_of_filter. auto.
Qed.

Lemma orphan_is_never_cleaned_up_witness :
  let m := stateChange "success" (JS.Num 5) in
  let w' := publishAll [m; m] afterReuse in
  sub_id executionSubscriber ∈ getActiveSubscriptions (bus w') /\
  cancel 0 w' = w'.
Proof.
  intros m w'.
  assert (Hobs : observers (bus afterReuse) = [executionSubscriber])
    by (vm_compute; reflexivity).
  destruct (orphan_is_never_cleaned_up afterReuse executionSubscriber 0
              ["success"] ["error"; "failure"]
              (Some (fn "onSuccess")) (Some (fn "onError"))
              (Some (fn "onProgress")) [m; m] m consistent_afterReuse)
    as (_ & Hactive & Hcancel & _).
  - intros o Ho. rewrite Hobs in Ho.
    apply list_elem_of_singleton in Ho as ->.
    intros id Hid. vm_compute in Hid. discriminate.
  - rewrite Hobs. left.
  - reflexivity.
  - vm_compute. reflexivity.
  - split; [exact Hactive|exact Hcancel].
Defined.

(** ** A registration id that is already taken *)

(** [execute] with a registration id that is already active (the bus skips
    the [subscribe]): no listener is registered for the execution, so its
    callbacks are never called, but the object tracks the id, and a later
    [cancel()] removes the subscription that owns it. *)
Theorem execute_id_collision (api : nat) (a : WorkflowAPI) (params : JS.value)
    (callbacks : WorkflowCallbacks) (config : option WorkflowConfig)
    (now : Z) (random : string) (t1 t2 : Z) (w : World) :
  let name := workflowName a in
  let rid := name +:+ "." +:+ decimal now +:+ "." +:+ random in
  consistent (bus w) ->
  apis w !! api = Some a ->
  rid ∈ getActiveSubscriptions (bus w) ->
  (forall o, o ∈ matching ("WF." +:+ name +:+ ".INIT") (observers (bus w)) ->
     plain o) ->
  (forall o, o ∈ matching ("WF." +:+ name +:+ ".SUBMIT") (observers (bus w)) ->
     plain o) ->
  exists w',
    execute api params callbacks config now random t1 t2 w = Some w' /\
    observers (bus w') = observers (bus w) /\
    getActiveSubscriptions (bus w') = getActiveSubscriptions (bus w) /\
    apis w' !! api
    = Some {| workflowName := name; subscriptionId := Some rid |} /\
    (rid ∉ getActiveSubscriptions (bus (cancel api w'))) /\
    forall id, id ≠ rid ->
      (id ∈ getActiveSubscriptions (bus (cancel api w')) <->
       id ∈ getActiveSubscriptions (bus w)).
Proof.
  intros name rid Hc Ha Hrid Hinit Hsubmit.
  unfold execute. rewrite Ha. cbn [mbind option_bind].
  fold name. fold rid.
  unfold subscribe. cbn [bus setApi].
  rewrite (proj2 (has_spec rid (bus w)) Hrid). cbn [mbind option_bind].
  eexists. split; [reflexivity|].
  set (w1 := setApi api
               {| workflowName := name; subscriptionId := Some rid |} w).
  rewrite (send_plain ("WF." +:+ name +:+ ".INIT") _ _ t1 (setBus (bus w1) w1))
    by exact Hinit.
  rewrite send_plain by exact Hsubmit.
  cbn [bus addToHistory observers subscriptions apis setApi setBus w1].
  split; [reflexivity|]. split; [reflexivity|].
  split; [apply lookup_insert_eq|].
  unfold cancel.
  erewrite (cleanup_tracked api _ rid);
    [|cbn [apis]; apply lookup_insert_eq|reflexivity
     |apply registrationId_nonempty].
  cbn [bus setApi setBus].
  match goal with
  | |- context [unsubscribe rid ?b] =>
      assert (Hact : forall id,
                id ∈ getActiveSubscriptions (unsubscribe rid b) <->
                id ∈ getActiveSubscriptions (unsubscribe rid (bus w)))
  end.
  { intros id. unfold unsubscribe, getActiveSubscriptions.
    cbn [subscriptions addToHistory].
    destruct (mapGet rid (subscriptions (bus w))); reflexivity. }
  destruct (getActiveSubscriptions_unsubscribe rid (bus w) Hc) as [Hgone Hrest].
  split.
  - rewrite Hact. exact Hgone.
  - intros id Hne. rewrite Hact. apply Hrest, Hne.
Qed.

(** A second [execute] on the same object at the same [Date.now()] and with
    the same random suffix. *)
Lemma execute_id_collision_witness :
  exists w',
    execute 0 JS.Null someCallbacks None 100 "aaaaaaaaa" 103 104 oneExecution
    = Some w' /\
    getActiveSubscriptions (bus w') = getActiveSubscriptions (bus oneExecution) /\
    getActiveSubscriptions (bus (cancel 0 w')) = [].
Proof.
  destruct (execute_id_collision 0
              {| workflowName := "W"; subscriptionId := Some "W.100.aaaaaaaaa" |}
              JS.Null someCallbacks None 100 "aaaaaaaaa" 103 104 oneExecution)
    as (w' & He & _ & Hact & _).
  - apply (consistent_reachable None), reachable_oneExecution.
  - reflexivity.
  - vm_compute. left.
  - intros o Ho. vm_compute in Ho. inversion Ho.
  - intros o Ho. vm_compute in Ho. inversion Ho.
  - exists w'. split; [exact He|]. split; [exact Hact|].
    injection He as <-. vm_compute. reflexivity.
Defined.

(** ** More on wildcard matching *)

Section Unanchored.

Lemma matchHere_extend re s after :
  RegExp.matchHere re s = true -> RegExp.matchHere re (s +:+ after) = true.
Proof.
  revert s. induction re as [|[a|a] re IH]; intros s.
  - reflexivity.
  - destruct s as [|c s]; simpl; [discriminate|].
    rewrite !andb_true_iff. intros [Hc H].
    split; [exact Hc|apply IH, H].
  - induction s as [|c s IHs].
    + rewrite (matchHere_many a re EmptyString),
        (matchHere_many a re (EmptyString +:+ after)), !orb_true_iff.
      intros [H|H]; [|discriminate]. left. apply (IH EmptyString), H.
    + rewrite append_cons, (matchHere_many a re (String c s)),
        (matchHere_many a re (String c (s +:+ after))), !orb_true_iff,
        !andb_true_iff.
      intros [H|[Hc H]]; [left; apply (IH (String c s)), H|].
      right. split; [exact Hc|apply IHs, H].
Qed.

Lemma test_extend re s after :
  RegExp.test re s = true -> RegExp.test re (s +:+ after) = true.
Proof.
  intros H. apply test_iff in H as (skipped & rest & -> & H).
  apply test_iff. exists skipped, (rest +:+ after). split.
  - clear. induction skipped as [|c skipped IH]; [reflexivity|].
    rewrite !append_cons, IH. reflexivity.
  - apply matchHere_extend, H.
Qed.

Lemma test_skip re before s :
  RegExp.test re s = true -> RegExp.test re (before +:+ s) = true.
Proof.
  intros H. induction before as [|c before IH]; [exact H|].
  rewrite append_cons. simpl. rewrite IH. apply orb_true_r.
Qed.

End Unanchored.

(** A wildcard pattern is searched for, not matched against the whole topic:
    a topic that matches still matches with any text before and after it
    (the pattern [USER.*] also matches [SUPERUSER.LOGIN]). *)
Theorem wildcard_matches_inside (pattern eventTopic before after : string) :
  includesStar pattern = true ->
  matches pattern eventTopic = Some true ->
  matches pattern (before +:+ eventTopic +:+ after) = Some true.
Proof.
  unfold matches, compileFilter. intros ->.
  destruct (RegExp.parse (replaceStars pattern)) as [re|]; [|discriminate].
  simpl. intros [= H]. f_equal. apply test_skip, test_extend, H.
Qed.

Lemma wildcard_matches_inside_witness :
  matches "USER.*" ("SUPER" +:+ "USER.LOGIN" +:+ "") = Some true.
Proof.
  apply (wildcard_matches_inside "USER.*" "USER.LOGIN" "SUPER" "");
    reflexivity.
Defined.

Section Case.

Lemma canonicalize_idem c :
  RegExp.canonicalize (RegExp.canonicalize c) = RegExp.canonicalize c.
Proof. destruct c as [[] [] [] [] [] [] [] []]; reflexivity. Qed.

Lemma isLineTerminator_canonicalize c :
  RegExp.isLineTerminator (RegExp.canonicalize c) = RegExp.isLineTerminator c.
Proof. destruct c as [[] [] [] [] [] [] [] []]; reflexivity. Qed.

Lemma isStar_canonicalize c :
  Ascii.eqb (RegExp.canonicalize c) "*" = Ascii.eqb c "*".
Proof. destruct c as [[] [] [] [] [] [] [] []]; reflexivity. Qed.

Lemma atomOf_canonicalize c :
  RegExp.atomOf (RegExp.canonicalize c) = upperAtom <$> RegExp.atomOf c.
Proof. destruct c as [[] [] [] [] [] [] [] []]; reflexivity. Qed.

Lemma accepts_canonicalize a c :
  RegExp.accepts a (RegExp.canonicalize c) = RegExp.accepts a c.
Proof.
  destruct a as [p|]; simpl.
  - rewrite canonicalize_idem. reflexivity.
  - rewrite isLineTerminator_canonicalize. reflexivity.
Qed.

Lemma accepts_upperAtom a c :
  RegExp.accepts (upperAtom a) c = RegExp.accepts a c.
Proof.
  destruct a as [p|]; simpl; [|reflexivity].
  rewrite canonicalize_idem. reflexivity.
Qed.

Lemma matchHere_upperCase re s :
  RegExp.matchHere re (upperCase s) = RegExp.matchHere re s.
Proof.
  revert s. induction re as [|[a|a] re IH]; intros s.
  - reflexivity.
  - destruct s as [|c s]; simpl; [reflexivity|].
    rewrite accepts_canonicalize, IH. reflexivity.
  - induction s as [|c s IHs].
    + rewrite (matchHere_many a re (upperCase EmptyString)),
        (matchHere_many a re EmptyString).
      apply (f_equal (fun b => b || false)), (IH EmptyString).
    + cbn [upperCase].
      rewrite (matchHere_many a re (String _ (upperCase s))),
        (matchHere_many a re (String c s)).
      rewrite accepts_canonicalize, IHs.
      rewrite <- (IH (String c s)). reflexivity.
Qed.

Lemma test_upperCase re s :
  RegExp.test re (upperCase s) = RegExp.test re s.
Proof.
  induction s as [|c s IHs]; simpl.
  - reflexivity.
  - rewrite IHs. f_equal. apply (matchHere_upperCase re (String c s)).
Qed.

Lemma matchHere_upperPiece re s :
  RegExp.matchHere (upperRegex re) s = RegExp.matchHere re s.
Proof.
  unfold upperRegex. revert s. induction re as [|[a|a] re IH]; intros s.
  - reflexivity.
  - rewrite fmap_cons. destruct s as [|c s]; simpl; [reflexivity|].
    rewrite accepts_upperAtom, IH. reflexivity.
  - rewrite fmap_cons. cbn [upperPiece].
    induction s as [|c s IHs].
    + rewrite (matchHere_many a re EmptyString),
        (matchHere_many (upperAtom a) _ EmptyString), IH. reflexivity.
    + rewrite (matchHere_many a re (String c s)),
        (matchHere_many (upperAtom a) _ (String c s)).
      rewrite accepts_upperAtom, IHs, IH. reflexivity.
Qed.

Lemma test_upperPiece re s :
  RegExp.test (upperRegex re) s = RegExp.test re s.
Proof.
  induction s as [|c s IHs]; simpl; rewrite matchHere_upperPiece;
    [reflexivity|]. rewrite IHs. reflexivity.
Qed.

Lemma includesStar_upperCase s : includesStar (upperCase s) = includesStar s.
Proof.
  induction s as [|c s IH]; [reflexivity|]. simpl.
  rewrite isStar_canonicalize, IH. reflexivity.
Qed.

Lemma replaceStars_upperCase s :
  replaceStars (upperCase s) = upperCase (replaceStars s).
Proof.
  induction s as [|c s IH]; [reflexivity|]. simpl.
  rewrite isStar_canonicalize, IH.
  destruct (Ascii.eqb c "*"); reflexivity.
Qed.

Lemma parse_upperCase s :
  RegExp.parse (upperCase s) = upperRegex <$> RegExp.parse s.
Proof.
  remember (String.length s) as n eqn:Hn.
  revert s Hn. induction n as [n IH] using lt_wf_ind. intros s Hn.
  destruct s as [|c s]; [reflexivity|].
  cbn [upperCase RegExp.parse]. rewrite atomOf_canonicalize.
  destruct (RegExp.atomOf c) as [a|]; [|reflexivity]. cbn [fmap option_fmap option_map].
  destruct s as [|q s]; [reflexivity|].
  cbn [upperCase]. rewrite isStar_canonicalize.
  destruct (Ascii.eqb q "*").
  - rewrite (IH (String.length s)) by (simpl in Hn; lia || reflexivity).
    destruct (RegExp.parse s); reflexivity.
  - change (String (RegExp.canonicalize q) (upperCase s))
      with (upperCase (String q s)).
    rewrite (IH (String.length (String q s)))
      by (simpl in Hn |- *; lia || reflexivity).
    destruct (RegExp.parse (String q s)); reflexivity.
Qed.

End Case.

(** Wildcard matching ignores the case of ASCII letters, in the topic and in
    the pattern: putting either in upper case changes nothing (so two
    patterns, or two topics, that differ only in case are matched alike). *)
Theorem wildcard_ignores_case (pattern eventTopic : string) :
  includesStar pattern = true ->
  matches pattern (upperCase eventTopic) = matches pattern eventTopic /\
  matches (upperCase pattern) eventTopic = matches pattern eventTopic.
Proof.
  intros Hstar. unfold matches, compileFilter.
  rewrite includesStar_upperCase, Hstar, replaceStars_upperCase,
    parse_upperCase.
  destruct (RegExp.parse (replaceStars pattern)) as [re|]; simpl;
    [|split; reflexivity].
  rewrite test_upperCase, test_upperPiece. split; reflexivity.
Qed.

Lemma wildcard_ignores_case_witness :
  matches "Order.*" (upperCase "order.placed") = matches "Order.*" "order.placed".
Proof.
  apply (proj1 (wildcard_ignores_case "Order.*" "order.placed" eq_refl)).
Defined.

Section Stars.

Lemma matchHere_all_many n s :
  RegExp.matchHere (replicate n (RegExp.Many RegExp.Dot)) s = true.
Proof.
  induction n as [|n IH]; [reflexivity|].
  cbn [replicate]. rewrite matchHere_many, IH. reflexivity.
Qed.

Lemma parse_onlyStars pattern :
  onlyStars pattern = true ->
  RegExp.parse (replaceStars pattern)
  = Some (replicate (String.length pattern) (RegExp.Many RegExp.Dot)).
Proof.
  induction pattern as [|c rest IH]; [reflexivity|]. simpl.
  intros H. apply andb_true_iff in H as [Hc H]. rewrite Hc.
  cbn [RegExp.parse]. change (RegExp.atomOf ".") with (Some RegExp.Dot).
  change (Ascii.eqb "*" "*") with true. cbn iota. rewrite (IH H). reflexivity.
Qed.

End Stars.

(** A pattern made of [*] only matches every topic, whatever its
    characters. *)
Theorem stars_match_everything (pattern eventTopic : string) :
  onlyStars pattern = true ->
  pattern ≠ "" ->
  matches pattern eventTopic = Some true.
Proof.
  intros Hs Hne. unfold matches, compileFilter.
  assert (Hstar : includesStar pattern = true).
  { destruct pattern as [|c rest]; [contradiction|]. simpl in Hs |- *.
    apply andb_true_iff in Hs as [-> _]. reflexivity. }
  rewrite Hstar, (parse_onlyStars pattern Hs). simpl. f_equal.
  destruct eventTopic; simpl; rewrite matchHere_all_many; reflexivity.
Qed.

Lemma stars_match_everything_witness :
  matches "*" (String "A" (String "010" (String "B" EmptyString))) = Some true.
Proof.
  apply stars_match_everything; [reflexivity|discriminate].
Defined.

(** ** [request] *)

Section Request.



End Request.



(** ** The bus after [destroy] *)

Section Destroy.

Lemma observers_unsubscribe_nil id b :
  observers b = [] -> observers (unsubscribe id b) = [].
Proof.
  intros Ho. unfold unsubscribe.
  destruct (mapGet id (subscriptions b)); [|exact Ho].
  cbn [observers]. rewrite Ho. reflexivity.
Qed.

Lemma sound_step s s' : lifetimeStep s s' -> sound s -> sound s'.
Proof.
  intros Hs Hsound. destruct Hs as [id pattern f c d s s' H| | | | |].
  - unfold Lifetime.subscribe in H.
    destruct (Lifetime.isStopped s) eqn:Hst.
    + destruct (has id (bus (Lifetime.world s)));
        [injection H as <-; exact Hsound|].
      destruct (compileFilter pattern); [|discriminate].
      injection H as <-. intros _. apply Hsound, Hst.
    + destruct (subscribe id pattern (Plain f) c d (bus (Lifetime.world s)));
        [|discriminate].
      injection H as <-. intros [=].
  - intros Hst. apply observers_unsubscribe_nil, Hsound, Hst.
  - intros Hst. cbn. rewrite (Hsound Hst). reflexivity.
  - intros Hst. apply Hsound, Hst.
  - unfold Lifetime.send. destruct (Lifetime.isStopped s) eqn:Hst.
    + intros _. apply Hsound, Hst.
    + intros [=].
  - intros _. unfold Lifetime.destroy, Lifetime.complete, Lifetime.onBus.
    cbn [Lifetime.isStopped Lifetime.world].
    destruct (Lifetime.isStopped s) eqn:Hst; cbn.
    + rewrite (Hsound Hst). reflexivity.
    + reflexivity.
Qed.

Lemma sound_rtc s s' : rtc lifetimeStep s s' -> sound s -> sound s'.
Proof. induction 1; eauto using sound_step. Qed.

Lemma silent_destroy s : sound s -> silent (Lifetime.destroy s).
Proof.
  intros Hsound.
  unfold silent, Lifetime.destroy, Lifetime.onBus, Lifetime.complete.
  cbn [Lifetime.isStopped Lifetime.world].
  destruct (Lifetime.isStopped s) eqn:Hs; cbn; [|auto].
  rewrite (Hsound Hs). auto.
Qed.

(** After [destroy], no call makes a listener run. *)
Lemma silent_step s s' :
  lifetimeStep s s' -> silent s ->
  silent s' /\
  log (Lifetime.world s') = log (Lifetime.world s) /\
  unhandled (Lifetime.world s') = unhandled (Lifetime.world s).
Proof.
  intros Hs [Hst Ho]. destruct Hs as [id pattern f c d s s' H| | | | |].
  - unfold Lifetime.subscribe in H. rewrite Hst in H.
    destruct (has id (bus (Lifetime.world s))); [injection H as <-; repeat split; auto|].
    destruct (compileFilter pattern); [|discriminate].
    injection H as <-. repeat split; auto.
  - repeat split; auto. apply observers_unsubscribe_nil, Ho.
  - repeat split; auto. cbn. rewrite Ho. reflexivity.
  - repeat split; auto.
  - unfold Lifetime.send. rewrite Hst. repeat split; auto.
  - split; [apply silent_destroy; intros _; exact Ho|].
    unfold Lifetime.destroy, Lifetime.complete, Lifetime.onBus.
    cbn [Lifetime.isStopped Lifetime.world]. rewrite Hst.
    split; reflexivity.
Qed.

Lemma silent_rtc s s' :
  rtc lifetimeStep s s' -> silent s ->
  silent s' /\
  log (Lifetime.world s') = log (Lifetime.world s) /\
  unhandled (Lifetime.world s') = unhandled (Lifetime.world s).
Proof.
  induction 1 as [|s1 s2 s3 Hs _ IH]; intros Hsil; [auto|].
  destruct (silent_step _ _ Hs Hsil) as (Hsil2 & Hl & Hu).
  destruct (IH Hsil2) as (Hsil3 & Hl3 & Hu3).
  split; [exact Hsil3|]. split; congruence.
Qed.

End Destroy.

(** [destroy] leaves no active subscription and an empty history, and the
    bus is dead from then on: whatever is called afterwards, no listener
    runs again.  A [send] still records its event in the history, and a
    [subscribe] under a new id still makes the id active, but that
    subscription never receives anything. *)
Theorem destroyed_bus_delivers_nothing (options : option Options)
    (s s' : Lifetime.t) :
  rtc lifetimeStep (Lifetime.live (newWorld options)) s ->
  rtc lifetimeStep (Lifetime.destroy s) s' ->
  let d := Lifetime.destroy s in
  getActiveSubscriptions (bus (Lifetime.world d)) = [] /\
  eventHistory (bus (Lifetime.world d)) = [] /\
  log (Lifetime.world s') = log (Lifetime.world s) /\
  unhandled (Lifetime.world s') = unhandled (Lifetime.world s) /\
  (forall topic data metadata now,
     let sent := Lifetime.send topic data metadata now s' in
     log (Lifetime.world sent) = log (Lifetime.world s) /\
     eventHistory (bus (Lifetime.world sent))
     = eventHistory
         (addToHistory {| topic := topic; data := data; timestamp := now;
                          metadata := metadata |} (bus (Lifetime.world s')))) /\
  (forall id pattern l c cd f,
     compileFilter pattern = Some f ->
     id ∉ getActiveSubscriptions (bus (Lifetime.world s')) ->
     exists s'',
       Lifetime.subscribe id pattern l c cd s' = Some s'' /\
       getActiveSubscriptions (bus (Lifetime.world s''))
       = getActiveSubscriptions (bus (Lifetime.world s')) ++ [id] /\
       observers (bus (Lifetime.world s'')) = []).
Proof.
  intros Hr Hr' d.
  assert (Hsound : sound s).
  { apply (sound_rtc _ _ Hr). intros [=]. }
  pose proof (silent_destroy s Hsound) as Hsil.
  destruct (silent_rtc _ _ Hr' Hsil) as ([Hst Ho] & Hlog & Hun).
  assert (Hd : log (Lifetime.world d) = log (Lifetime.world s) /\
               unhandled (Lifetime.world d) = unhandled (Lifetime.world s) /\
               getActiveSubscriptions (bus (Lifetime.world d)) = [] /\
               eventHistory (bus (Lifetime.world d)) = []).
  { unfold d, Lifetime.destroy, Lifetime.complete, Lifetime.onBus.
    cbn [Lifetime.isStopped Lifetime.world].
    destruct (Lifetime.isStopped s); repeat split; reflexivity. }
  destruct Hd as (Hdl & Hdu & Hda & Hdh).
  split; [|split; [|split; [|split; [|split]]]].
  - exact Hda.
  - exact Hdh.
  - rewrite Hlog. exact Hdl.
  - rewrite Hun. exact Hdu.
  - intros topic data metadata now. cbv zeta. unfold Lifetime.send.
    rewrite Hst. cbn. split; [|reflexivity]. rewrite Hlog. exact Hdl.
  - intros id pattern l c cd f Hf Hid. unfold Lifetime.subscribe.
    rewrite Hst.
    destruct (has id (bus (Lifetime.world s'))) eqn:Hhas;
      [apply has_spec in Hhas; contradiction|].
    rewrite Hf. eexists. split; [reflexivity|]. split.
    + unfold getActiveSubscriptions. cbn. rewrite fmap_app. reflexivity.
    + exact Ho.
Qed.

Lemma destroyed_bus_delivers_nothing_witness :
  let sent := Lifetime.send "A.B" (JS.Num 7) JS.Undefined 5 lateSubscription in
  getActiveSubscriptions (bus (Lifetime.world lateSubscription)) = ["late"] /\
  log (Lifetime.world sent) = [].
Proof.
  intros sent. split; [reflexivity|].
  refine (proj1 (proj1 (proj2 (proj2 (proj2 (proj2
    (destroyed_bus_delivers_nothing None
       (Lifetime.live (subscribed "first" "A.B" (fn "L1") (newWorld None)))
       lateSubscription _ _)))))
    "A.B" (JS.Num 7) JS.Undefined 5%Z)).
  - apply rtc_once.
    apply (lifetime_subscribe "first" "A.B" (fn "L1") JS.Undefined
             JS.Undefined). reflexivity.
  - apply rtc_once.
    apply (lifetime_subscribe "late" "A.B" (fn "L2") JS.Undefined
             JS.Undefined). reflexivity.
Defined.
